(** * Measurement aggregation of the x86 Intel executor

    A shallow embedding of [X86Intel.trace_test_case] (src/executor.py):
    the protocol that loads a batch of inputs into the kernel module,
    runs the measurement rounds, and removes outliers from the collected
    hardware traces and performance-counter readings. *)

From Stdlib Require Import ZArith List Permutation Lia Ascii String.
From stdpp Require Import gmap strings list.

Local Open Scope Z_scope.

(** ** Data model *)

(** [config.CONF]: the options read by [trace_test_case]. The module
    [config] is not part of the sources; its values are Python integers
    and a flag, and are taken as a parameter of every definition. *)
Record Conf := {
  num_measurements : Z;
  max_outliers : Z;
  ignore_first_cache_line : bool;
  measurement_cpu : Z
}.

(** An input is only ever serialised: [i.tobytes()]. *)
Record Input := { tobytes : list Byte.byte }.

(** One row of [csv.DictReader] over measurement.txt. A cell is [None]
    when the column is missing from the row or its text is not an integer
    literal: [int(row[...])] raises on it. *)
Record Row := {
  CACHE_MAP : option Z;
  pfc1 : option Z;
  pfc2 : option Z;
  pfc3 : option Z
}.

(** What one measurement leaves in measurement.txt: the header
    ([reader.fieldnames], empty for an empty file) and the rows. *)
Record Measurement := {
  fieldnames : list string;
  rows : list Row
}.

(** The kernel module as seen from one call: whether /proc/x86-executor
    exists, the line read back from /sys/x86-executor/n_inputs after the
    load, and the output of the k-th measurement of the call. The shell
    commands and the file accesses themselves are taken to succeed. *)
Record Device := {
  module_loaded : bool;
  n_inputs_readback : string;
  measure : nat → Measurement
}.

(** [pfc_readings[i]]: the three lists [[], [], []] of one input. *)
Record PfcLists := {
  pfc_0 : list Z;
  pfc_1 : list Z;
  pfc_2 : list Z
}.

(** The two accumulators of the measurement loop. *)
Record Histories := {
  traces : list (list Z);
  pfc_readings : list PfcLists
}.

(** Everything the function does to the outside world, in order. *)
Inductive Event :=
| IsFile                                   (* os.path.isfile("/proc/x86-executor") *)
| WriteNInputs (n : nat)                   (* write_to_pseudo_file(str(len(inputs)), .../n_inputs) *)
| WriteInputs (payload : list Byte.byte)   (* write_to_pseudo_file_bytes(..., .../inputs) *)
| ReadNInputs                              (* open(.../n_inputs).readline() *)
| RunMeasurement (cpu : Z)                 (* taskset -c cpu cat /proc/x86-executor | tee measurement.txt *)
| ExecutorHook (payload : list (Z * Z * Z)). (* self.coverage.executor_hook(...) *)

Definition is_device_call (ev : Event) : bool :=
  match ev with
  | ExecutorHook _ => false
  | _ => true
  end.

Definition device_calls (log : list Event) : list Event :=
  List.filter is_device_call log.

Definition hook_calls (log : list Event) : list (list (Z * Z * Z)) :=
  omap (λ ev, match ev with ExecutorHook p => Some p | _ => None end) log.

(** ** Exceptions and the effect monad *)

Inductive exn :=
| LoggerError (msg : string)
| HardwareTraceNotProduced   (* raise Exception("Error: Hardware Trace was not produced.") *)
| IndexError                 (* list index out of range *)
| CellError.                 (* row[col] or int(...) on a cell that cannot be
                                read: a KeyError (no such column), a
                                TypeError (row shorter than the header) or a
                                ValueError (not an integer literal) *)

Inductive result (A : Type) :=
| Ok (a : A)
| Raise (e : exn).
Arguments Ok {A} a.
Arguments Raise {A} e.

#[global] Instance result_ret : MRet result := λ A a, Ok a.
#[global] Instance result_bind : MBind result := λ A B f r,
  match r with
  | Ok a => f a
  | Raise e => Raise e
  end.

(** A computation appends to the log of events and returns or raises;
    the log survives a raise. *)
Definition M (A : Type) : Type := list Event → result A * list Event.

#[global] Instance M_ret : MRet M := λ A a log, (Ok a, log).
#[global] Instance M_bind : MBind M := λ A B f m log,
  match m log with
  | (Ok a, log') => f a log'
  | (Raise e, log') => (Raise e, log')
  end.

Definition emit (ev : Event) : M unit := λ log, (Ok tt, log ++ [ev]).
Definition raise {A} (e : exn) : M A := λ log, (Raise e, log).
Definition lift {A} (r : result A) : M A := λ log, (r, log).
Definition run {A} (m : M A) : result A * list Event := m [].

(** Modelled from the spec: [service.LOGGER] is not part of the sources.
    The specification's error design makes both failures it reports here
    fatal for the batch (DeviceUnavailable, LoadRejected), so
    [LOGGER.error] ends the call. *)
Definition LOGGER_error {A} (msg : string) : M A := raise (LoggerError msg).

(** ** The measurement loop (lines 98-122) *)

(** [int(row[col])]. The three exceptions Python has for a cell that
    cannot be read are not told apart: all are [CellError]. *)
Definition int (cell : option Z) : result Z :=
  match cell with
  | Some z => Ok z
  | None => Raise CellError
  end.

(** [l[i].append(x)], through [f]; raises when [i] is out of range. *)
Definition update_at {A} (i : nat) (f : A → A) (l : list A) : result (list A) :=
  if decide (i < length l)%nat then Ok (alter f i l) else Raise IndexError.

Definition first_cache_line_mask : Z := 9223372036854775807.

(** [if CONF.ignore_first_cache_line: trace &= 9223372036854775807] *)
Definition recorded_trace (conf : Conf) (trace : Z) : Z :=
  if ignore_first_cache_line conf then Z.land trace first_cache_line_mask
  else trace.

Definition process_row (conf : Conf) (i : nat) (row : Row) (st : Histories)
  : result Histories :=
  trace ← int (CACHE_MAP row);
  let trace := recorded_trace conf trace in
  traces' ← update_at i (λ h, h ++ [trace]) (traces st);
  r1 ← int (pfc1 row);
  pfc' ← update_at i (λ r, {| pfc_0 := pfc_0 r ++ [r1]; pfc_1 := pfc_1 r; pfc_2 := pfc_2 r |})
            (pfc_readings st);
  r2 ← int (pfc2 row);
  pfc'' ← update_at i (λ r, {| pfc_0 := pfc_0 r; pfc_1 := pfc_1 r ++ [r2]; pfc_2 := pfc_2 r |})
            pfc';
  r3 ← int (pfc3 row);
  pfc''' ← update_at i (λ r, {| pfc_0 := pfc_0 r; pfc_1 := pfc_1 r; pfc_2 := pfc_2 r ++ [r3] |})
            pfc'';
  mret {| traces := traces'; pfc_readings := pfc''' |}.

(** [for i, row in enumerate(reader)], from index [i] on. *)
Fixpoint process_rows (conf : Conf) (i : nat) (rs : list Row) (st : Histories)
  : result Histories :=
  match rs with
  | [] => Ok st
  | row :: rs' =>
      st' ← process_row conf i row st;
      process_rows conf (S i) rs' st'
  end.

Definition CACHE_MAP_column : string := "CACHE_MAP".

(** [not reader.fieldnames or 'CACHE_MAP' not in reader.fieldnames] *)
Definition trace_not_produced (m : Measurement) : bool :=
  match fieldnames m with
  | [] => true
  | names => negb (bool_decide (CACHE_MAP_column ∈ names))
  end.

(** The body of [for _ in range(num_measurements)], at iteration [k]. *)
Definition measure_round (conf : Conf) (dev : Device) (k : nat) (st : Histories)
  : M Histories :=
  emit (RunMeasurement (measurement_cpu conf));;
  if trace_not_produced (measure dev k) then raise HardwareTraceNotProduced
  else lift (process_rows conf 0 (rows (measure dev k)) st).

(** The state after [n] iterations of the loop: iterations 0 .. n-1 in
    order, the first raise ending the loop. *)
Fixpoint measure_rounds (conf : Conf) (dev : Device) (n : nat) (st0 : Histories)
  : M Histories :=
  match n with
  | O => mret st0
  | S k =>
      st ← measure_rounds conf dev k st0;
      measure_round conf dev k st
  end.

(** [traces = [[] for _ in inputs]], [pfc_readings = [[[], [], []] for _ in inputs]] *)
Definition initial_histories (inputs : list Input) : Histories :=
  {| traces := replicate (length inputs) [];
     pfc_readings := replicate (length inputs)
                       {| pfc_0 := []; pfc_1 := []; pfc_2 := [] |} |}.

(** ** Outlier removal (lines 129-156) *)

(** [collections.Counter]: a missing key reads as 0. *)
Definition counter_get (c : gmap Z Z) (k : Z) : Z := default 0 (c !! k).

(** [c[k] += 1] *)
Definition counter_incr (c : gmap Z Z) (k : Z) : gmap Z Z :=
  <[k := counter_get c k + 1]> c.

(** One iteration of [for trace in trace_list] on the pair
    ([num_occurrences], [merged_traces[i]]). *)
Definition merge_step (conf : Conf) (acc : gmap Z Z * Z) (trace : Z)
  : gmap Z Z * Z :=
  let num_occurrences := counter_incr acc.1 trace in
  if counter_get num_occurrences trace <=? max_outliers conf then
    (num_occurrences, acc.2)
  else if counter_get num_occurrences trace =? max_outliers conf + 1 then
    (num_occurrences, Z.lor acc.2 trace)
  else (num_occurrences, acc.2).

(** The inner loop for one input, started from [merged_traces[i] = m0]
    with a fresh counter. *)
Definition merge_trace_list (conf : Conf) (trace_list : list Z) (m0 : Z) : Z :=
  (foldl (merge_step conf) (∅, m0) trace_list).2.

(** [merged_traces = [0 for _ in inputs]] updated in place by
    [for i, trace_list in enumerate(traces)]. *)
Definition merged_traces (conf : Conf) (inputs : list Input) (trs : list (list Z))
  : list Z :=
  imap (λ i m0, match trs !! i with
                | Some trace_list => merge_trace_list conf trace_list m0
                | None => m0
                end)
       (replicate (length inputs) 0).

(** One iteration of [for reading in reading_lists[0]] on the pair
    ([num_occurrences], [filtered_pfc_readings[i][0]]). *)
Definition filter_step (conf : Conf) (acc : gmap Z Z * Z) (reading : Z)
  : gmap Z Z * Z :=
  let num_occurrences := counter_incr acc.1 reading in
  if counter_get num_occurrences reading <=? max_outliers conf * 2 then
    (num_occurrences, acc.2)
  else if counter_get num_occurrences reading =? max_outliers conf * 2 + 1 then
    (num_occurrences, Z.max acc.2 reading)
  else (num_occurrences, acc.2).

Definition filter_first_slot (conf : Conf) (readings : list Z) (f0 : Z) : Z :=
  (foldl (filter_step conf) (∅, f0) readings).2.

(** The loop over [enumerate(pfc_readings)] for one input: only
    [reading_lists[0]] is read and only slot 0 of the triple is written. *)
Definition filter_pfc (conf : Conf) (reading_lists : PfcLists) (t0 : Z * Z * Z)
  : Z * Z * Z :=
  (filter_first_slot conf (pfc_0 reading_lists) t0.1.1, t0.1.2, t0.2).

(** [filtered_pfc_readings = [[0, 0, 0] for _ in inputs]] updated in place. *)
Definition filtered_pfc_readings (conf : Conf) (inputs : list Input)
    (pfcs : list PfcLists) : list (Z * Z * Z) :=
  imap (λ i t0, match pfcs !! i with
                | Some reading_lists => filter_pfc conf reading_lists t0
                | None => t0
                end)
       (replicate (length inputs) (0, 0, 0)).

(** ** The single-measurement return path (lines 124-127) *)

(** [l[0]] *)
Definition first (l : list Z) : result Z :=
  match l with
  | x :: _ => Ok x
  | [] => Raise IndexError
  end.

(** A list comprehension whose body may raise. *)
Fixpoint comprehension {A B} (f : A → result B) (l : list A) : result (list B) :=
  match l with
  | [] => Ok []
  | x :: l' =>
      y ← f x;
      ys ← comprehension f l';
      mret (y :: ys)
  end.

(** [[r[0][0], r[1][0], r[2][0]]] *)
Definition raw_triple (r : PfcLists) : result (Z * Z * Z) :=
  a ← first (pfc_0 r);
  b ← first (pfc_1 r);
  c ← first (pfc_2 r);
  mret (a, b, c).

(** ** [trace_test_case] (lines 71-161) *)

Definition zero_line : string := String "0"%char (String "010"%char EmptyString).

(** Lines 77-79: is the kernel module ready? *)
Definition check_module (dev : Device) : M unit :=
  emit IsFile;;
  if module_loaded dev then mret tt
  else LOGGER_error "x86 Intel Executor: kernel module not loaded".

(** Lines 81-82: 0 stands for the configured number of measurements. *)
Definition effective_rounds (conf : Conf) (num_measurements0 : Z) : Z :=
  if num_measurements0 =? 0 then num_measurements conf else num_measurements0.

(** Lines 84-96: the protocol of loading inputs. *)
Definition load_inputs (dev : Device) (inputs : list Input) : M unit :=
  let byte_inputs_merged := concat (tobytes <$> inputs) in
  emit (WriteNInputs (length inputs));;
  emit (WriteInputs byte_inputs_merged);;
  emit ReadNInputs;;
  if String.eqb (n_inputs_readback dev) zero_line
  then LOGGER_error "Failure loading inputs!" else mret tt.

(** Lines 124-127: a single measurement is returned as it is. *)
Definition single_measurement (coverage : bool) (st : Histories) : M (list Z) :=
  (if coverage then
     payload ← lift (comprehension raw_triple (pfc_readings st));
     emit (ExecutorHook payload)
   else mret tt);;
  lift (comprehension first (traces st)).

(** Lines 129-161: remove outliers and merge. *)
Definition remove_outliers (conf : Conf) (coverage : bool) (inputs : list Input)
    (st : Histories) : M (list Z) :=
  let merged := merged_traces conf inputs (traces st) in
  let filtered := filtered_pfc_readings conf inputs (pfc_readings st) in
  (if coverage then emit (ExecutorHook filtered) else mret tt);;
  mret merged.

Definition trace_test_case (conf : Conf) (coverage : bool) (dev : Device)
    (inputs : list Input) (num_measurements0 : Z) : M (list Z) :=
  match inputs with
  | [] => mret []
  | _ =>
      check_module dev;;
      let n := effective_rounds conf num_measurements0 in
      load_inputs dev inputs;;
      st ← measure_rounds conf dev (Z.to_nat n) (initial_histories inputs);
      if n =? 1 then single_measurement coverage st
      else remove_outliers conf coverage inputs st
  end.

(** ** Specification-side vocabulary *)

(** How often [v] occurs in a history. *)
Definition occurrences (v : Z) (l : list Z) : Z :=
  Z.of_nat (count_occ Z.eq_dec l v).

(** The distinct values of a history that occur more than
    [max_outliers] times. *)
Definition frequent_values (conf : Conf) (l : list Z) : list Z :=
  filter (λ v, max_outliers conf < occurrences v l) (remove_dups l).

Definition or_all (vs : list Z) : Z := foldr Z.lor 0 vs.

(** A row all of whose cells are integers. *)
Definition mk_row (r : Z * Z * Z * Z) : Row :=
  {| CACHE_MAP := Some r.1.1.1; pfc1 := Some r.1.1.2;
     pfc2 := Some r.1.2; pfc3 := Some r.2 |}.

(** The state after row [r] has been recorded for input [i]. *)
Definition record_row (conf : Conf) (i : nat) (r : Z * Z * Z * Z)
    (st : Histories) : Histories :=
  {| traces := alter (λ h, h ++ [recorded_trace conf r.1.1.1]) i (traces st);
     pfc_readings :=
       alter (λ p, {| pfc_0 := pfc_0 p ++ [r.1.1.2];
                      pfc_1 := pfc_1 p ++ [r.1.2];
                      pfc_2 := pfc_2 p ++ [r.2] |}) i (pfc_readings st) |}.

(** The state after the rows [rs] have been recorded for the inputs
    [i], [i+1], ... *)
Fixpoint record_rows (conf : Conf) (i : nat) (rs : list (Z * Z * Z * Z))
    (st : Histories) : Histories :=
  match rs with
  | [] => st
  | r :: rs' => record_rows conf (S i) rs' (record_row conf i r st)
  end.

(** [alter (f r) i] for the successive elements [r] of [rs] and the
    successive indices from [i] on. *)
Fixpoint alter_from {A B} (f : B → A → A) (i : nat) (rs : list B) (l : list A)
  : list A :=
  match rs with
  | [] => l
  | r :: rs' => alter_from f (S i) rs' (alter (f r) i l)
  end.

(** The module is present and the load was not answered with "0". *)
Definition device_ready (dev : Device) : bool :=
  module_loaded dev && negb (String.eqb (n_inputs_readback dev) zero_line).

(** The events of a call up to the first measurement. *)
Definition prelude (inputs : list Input) : list Event :=
  [IsFile; WriteNInputs (length inputs);
   WriteInputs (concat (tobytes <$> inputs)); ReadNInputs].

(** The result of the first [n] iterations of the measurement loop. *)
Definition histories_after (conf : Conf) (dev : Device) (inputs : list Input)
    (n : nat) : result Histories :=
  (run (measure_rounds conf dev n (initial_histories inputs))).1.

(** All occurrences of [v] taken out of a history. *)
Definition without (v : Z) (l : list Z) : list Z := filter (λ x, x ≠ v) l.

(** The shape shared by the two counting loops: count the occurrences and
    fire [op] when the count of the current value is exactly
    [threshold + 1]. *)
Definition counting_step (threshold : Z) (op : Z → Z → Z)
    (acc : gmap Z Z * Z) (x : Z) : gmap Z Z * Z :=
  let num_occurrences := counter_incr acc.1 x in
  if counter_get num_occurrences x <=? threshold then (num_occurrences, acc.2)
  else if counter_get num_occurrences x =? threshold + 1
       then (num_occurrences, op acc.2 x)
       else (num_occurrences, acc.2).

(** A computation is [natural] when it only appends to the log it is
    given. *)
Definition natural {A} (m : M A) : Prop :=
  ∀ log, m log = ((run m).1, log ++ (run m).2).

(** ** A worked batch

    Three inputs, five measurements, one tolerated outlier. Input 0 reads
    1, 1, 2, 2, 2; input 1 reads a different value each time; input 2
    always reads 4. *)

Definition scenario_conf : Conf :=
  {| num_measurements := 5; max_outliers := 1;
     ignore_first_cache_line := false; measurement_cpu := 2 |}.

Definition scenario_inputs : list Input :=
  [ {| tobytes := [Byte.x61] |}; {| tobytes := [Byte.x62] |};
    {| tobytes := [Byte.x63] |} ].

Definition scenario_header : list string :=
  ["CACHE_MAP"; "pfc1"; "pfc2"; "pfc3"]%string.

Definition scenario_device : Device :=
  {| module_loaded := true;
     n_inputs_readback := String "3"%char (String "010"%char EmptyString);
     measure := λ k,
       {| fieldnames := scenario_header;
          rows := mk_row <$>
            [ (if (k <? 2)%nat then 1 else 2, 7, 10, 20);
              (Z.of_nat k + 8, if (k <? 3)%nat then 5 else 6, 11, 21);
              (4, 9, 12, 22) ] |} |}.

Definition scenario_histories : Histories :=
  {| traces := [ [1; 1; 2; 2; 2]; [8; 9; 10; 11; 12]; [4; 4; 4; 4; 4] ];
     pfc_readings :=
       [ {| pfc_0 := [7; 7; 7; 7; 7]; pfc_1 := [10; 10; 10; 10; 10];
            pfc_2 := [20; 20; 20; 20; 20] |};
         {| pfc_0 := [5; 5; 5; 6; 6]; pfc_1 := [11; 11; 11; 11; 11];
            pfc_2 := [21; 21; 21; 21; 21] |};
         {| pfc_0 := [9; 9; 9; 9; 9]; pfc_1 := [12; 12; 12; 12; 12];
            pfc_2 := [22; 22; 22; 22; 22] |} ] |}.

(** The same module with its five measurements in the opposite order. *)

Definition reversed_device : Device :=
  {| module_loaded := true;
     n_inputs_readback := n_inputs_readback scenario_device;
     measure := λ k, measure scenario_device (4 - k) |}.

Definition reversed_histories : Histories :=
  {| traces := [ [2; 2; 2; 1; 1]; [12; 11; 10; 9; 8]; [4; 4; 4; 4; 4] ];
     pfc_readings :=
       [ {| pfc_0 := [7; 7; 7; 7; 7]; pfc_1 := [10; 10; 10; 10; 10];
            pfc_2 := [20; 20; 20; 20; 20] |};
         {| pfc_0 := [6; 6; 5; 5; 5]; pfc_1 := [11; 11; 11; 11; 11];
            pfc_2 := [21; 21; 21; 21; 21] |};
         {| pfc_0 := [9; 9; 9; 9; 9]; pfc_1 := [12; 12; 12; 12; 12];
            pfc_2 := [22; 22; 22; 22; 22] |} ] |}.

(** A single input whose reading has bit 0 and bit 63 set, measured with
    [ignore_first_cache_line] on. *)

Definition masking_conf : Conf :=
  {| num_measurements := 2; max_outliers := 0;
     ignore_first_cache_line := true; measurement_cpu := 2 |}.

Definition masking_inputs : list Input := [ {| tobytes := [Byte.x61] |} ].

Definition masking_device : Device :=
  {| module_loaded := true;
     n_inputs_readback := String "1"%char (String "010"%char EmptyString);
     measure := λ _,
       {| fieldnames := scenario_header;
          rows := [mk_row (9223372036854775809, 7, 10, 20)] |} |}.

(** Two inputs, two measurements, no tolerated outlier, and a module that
    answers every measurement with a single row. *)

Definition short_conf : Conf :=
  {| num_measurements := 2; max_outliers := 0;
     ignore_first_cache_line := false; measurement_cpu := 2 |}.

Definition short_inputs : list Input :=
  [ {| tobytes := [Byte.x61] |}; {| tobytes := [Byte.x62] |} ].

Definition short_device : Device :=
  {| module_loaded := true;
     n_inputs_readback := String "2"%char (String "010"%char EmptyString);
     measure := λ _,
       {| fieldnames := scenario_header; rows := [mk_row (5, 7, 10, 20)] |} |}.

(** The module of the worked batch going silent after its first
    measurement: the later outputs have no CACHE_MAP column. *)

Definition silent_device : Device :=
  {| module_loaded := true;
     n_inputs_readback := String "3"%char (String "010"%char EmptyString);
     measure := λ k,
       if (k <? 1)%nat then measure scenario_device k
       else {| fieldnames := ["pfc1"; "pfc2"; "pfc3"]%string; rows := [] |} |}.

(** ** Vocabulary for the counter filter and the histories *)

(** The distinct readings of a counter list that occur more than
    [2 * max_outliers] times. *)
Definition frequent_readings (conf : Conf) (l : list Z) : list Z :=
  filter (λ v, max_outliers conf * 2 < occurrences v l) (remove_dups l).

Definition max_all (vs : list Z) : Z := foldr Z.max 0 vs.

(** The four cells that measurement [k] of [table] has for input [i]. *)
Definition cells (table : nat → list (Z * Z * Z * Z)) (k i : nat)
  : Z * Z * Z * Z :=
  table k !!! i.

(** What input [i] has in its histories after [n] measurements that each
    returned the rows of [table]. *)
Definition trace_column (conf : Conf) (table : nat → list (Z * Z * Z * Z))
    (n i : nat) : list Z :=
  (λ k, recorded_trace conf (cells table k i).1.1.1) <$> seq 0 n.

Definition pfc_columns (table : nat → list (Z * Z * Z * Z)) (n i : nat)
  : PfcLists :=
  {| pfc_0 := (λ k, (cells table k i).1.1.2) <$> seq 0 n;
     pfc_1 := (λ k, (cells table k i).1.2) <$> seq 0 n;
     pfc_2 := (λ k, (cells table k i).2) <$> seq 0 n |}.



(** The rows of the worked batch, by measurement. *)
Definition scenario_table (k : nat) : list (Z * Z * Z * Z) :=
  [ (if (k <? 2)%nat then 1 else 2, 7, 10, 20);
    (Z.of_nat k + 8, if (k <? 3)%nat then 5 else 6, 11, 21);
    (4, 9, 12, 22) ].

(** The worked batch with a negative tolerance, and with no configured
    measurement at all. *)
Definition negative_conf : Conf :=
  {| num_measurements := 5; max_outliers := -1;
     ignore_first_cache_line := false; measurement_cpu := 2 |}.

Definition idle_conf : Conf :=
  {| num_measurements := 0; max_outliers := 1;
     ignore_first_cache_line := false; measurement_cpu := 2 |}.

Definition strict_conf : Conf :=
  {| num_measurements := 5; max_outliers := 0;
     ignore_first_cache_line := false; measurement_cpu := 2 |}.

(** The module of the worked batch with an unreadable trace cell in the
    second row of its third measurement. *)
Definition garbled_device : Device :=
  {| module_loaded := true;
     n_inputs_readback := n_inputs_readback scenario_device;
     measure := λ k,
       if (k =? 2)%nat then
         {| fieldnames := scenario_header;
            rows := [ mk_row (2, 7, 10, 20);
                      {| CACHE_MAP := None; pfc1 := Some 5; pfc2 := Some 11;
                         pfc3 := Some 21 |};
                      mk_row (4, 9, 12, 22) ] |}
       else measure scenario_device k |}.

(** ** The SMT check of [X86Intel.__init__] (lines 42-48) *)

Definition newline : ascii := "010"%char.

(** [s.split("\n")]: the pieces between the newlines, of which there is
    always at least one. *)
Fixpoint split_newline (s : string) : list string :=
  match s with
  | EmptyString => [EmptyString]
  | String c s' =>
      if Ascii.eqb c newline then EmptyString :: split_newline s'
      else match split_newline s' with
           | piece :: pieces => String c piece :: pieces
           | [] => [String c EmptyString]
           end
  end.

(** [line[-1]], when there is one. *)
Fixpoint last_char (line : string) : option ascii :=
  match line with
  | EmptyString => None
  | String c EmptyString => Some c
  | String _ rest => last_char rest
  end.

Definition threads_per_core : string := "Thread(s) per core:".

(** [line.startswith("Thread(s) per core:")] *)
Definition is_threads_line (line : string) : bool :=
  String.prefix threads_per_core line.

(** The body of [for line in out.stdout.decode().split("\n")] on
    [smt_on]. A line that starts with the marker is not empty, so
    [line[-1]] exists. *)
Definition smt_step (smt_on : option bool) (line : string) : option bool :=
  if is_threads_line line then
    if bool_decide (last_char line = Some "1"%char) then Some false
    else Some true
  else smt_on.

(** [smt_on] after the loop, from the output of lscpu. *)
Definition detect_smt (stdout : string) : option bool :=
  foldl smt_step None (split_newline stdout).

(** Pieces put back together with newlines between them. *)
Fixpoint join_newline (pieces : list string) : string :=
  match pieces with
  | [] => EmptyString
  | [piece] => piece
  | piece :: rest => String.append piece (String newline (join_newline rest))
  end.

Definition lscpu_sample : list string :=
  [ "Architecture:        x86_64"; "Thread(s) per core:  2";
    "Core(s) per socket:  4"; "" ]%string.

(** ** Counters *)

Lemma counter_get_incr c k k' :
  counter_get (counter_incr c k) k' =
  if decide (k = k') then counter_get c k + 1 else counter_get c k'.
Proof.
  unfold counter_incr, counter_get at 1.
  rewrite lookup_insert. destruct (decide (k = k')); reflexivity.
Qed.

Lemma occurrences_nil v : occurrences v [] = 0.
Proof. reflexivity. Qed.

Lemma occurrences_nonneg v l : 0 ≤ occurrences v l.
Proof. unfold occurrences. lia. Qed.

Lemma occurrences_snoc v l x :
  occurrences v (l ++ [x]) =
  if decide (x = v) then occurrences v l + 1 else occurrences v l.
Proof.
  unfold occurrences. rewrite count_occ_app. simpl.
  destruct (Z.eq_dec x v), (decide (x = v)); try contradiction; lia.
Qed.

Lemma occurrences_pos_elem v l : 0 < occurrences v l ↔ v ∈ l.
Proof.
  unfold occurrences. rewrite list_elem_of_In, (count_occ_In Z.eq_dec). lia.
Qed.

Lemma occurrences_perm v l l' : l ≡ₚ l' → occurrences v l = occurrences v l'.
Proof.
  intros H. unfold occurrences. f_equal.
  revert v. apply (Permutation_count_occ Z.eq_dec). exact H.
Qed.

Lemma occurrences_without w v l :
  occurrences w (without v l) = if decide (w = v) then 0 else occurrences w l.
Proof.
  unfold occurrences, without. induction l as [|x l IH].
  - destruct (decide (w = v)); reflexivity.
  - rewrite filter_cons.
    destruct (decide (w = v)) as [Hw|Hw], (decide (x ≠ v)) as [Hx|Hx];
      simpl; destruct (Z.eq_dec x w) as [E|E]; try lia; try congruence.
Qed.

(** ** The two counting loops *)

Section CountingLoop.
Variables (threshold : Z) (op : Z → Z → Z).

Lemma counting_step_fst acc x : (counting_step threshold op acc x).1 = counter_incr acc.1 x.
Proof.
  unfold counting_step.
  destruct (_ <=? _); [reflexivity|]. destruct (_ =? _); reflexivity.
Qed.

Lemma counting_loop_counts l a0 v :
  counter_get (foldl (counting_step threshold op) (∅, a0) l).1 v = occurrences v l.
Proof.
  induction l as [|x l IH] using rev_ind; [reflexivity|].
  rewrite foldl_snoc, counting_step_fst, counter_get_incr, occurrences_snoc.
  destruct (decide (x = v)) as [->|]; rewrite ?IH; reflexivity.
Qed.

Lemma counting_loop_snoc l a0 x :
  (foldl (counting_step threshold op) (∅, a0) (l ++ [x])).2 =
  if occurrences x l =? threshold
  then op (foldl (counting_step threshold op) (∅, a0) l).2 x
  else (foldl (counting_step threshold op) (∅, a0) l).2.
Proof.
  rewrite foldl_snoc. unfold counting_step at 1.
  rewrite counter_get_incr, decide_True by reflexivity.
  rewrite counting_loop_counts.
  pose proof (occurrences_nonneg x l).
  destruct (_ <=? _) eqn:E1; simpl.
  - destruct (_ =? _) eqn:E2; [lia|reflexivity].
  - destruct (occurrences x l + 1 =? _) eqn:E2, (occurrences x l =? _) eqn:E3;
      simpl; try reflexivity; lia.
Qed.
End CountingLoop.

Lemma merge_step_counting conf :
  merge_step conf = counting_step (max_outliers conf) Z.lor.
Proof. reflexivity. Qed.

Lemma filter_step_counting conf :
  filter_step conf = counting_step (max_outliers conf * 2) Z.max.
Proof. reflexivity. Qed.

Lemma merge_trace_list_nil conf m0 : merge_trace_list conf [] m0 = m0.
Proof. reflexivity. Qed.

Lemma merge_trace_list_snoc conf l x m0 :
  merge_trace_list conf (l ++ [x]) m0 =
  if occurrences x l =? max_outliers conf
  then Z.lor (merge_trace_list conf l m0) x
  else merge_trace_list conf l m0.
Proof. unfold merge_trace_list. rewrite merge_step_counting. apply counting_loop_snoc. Qed.

Lemma filter_first_slot_snoc conf l x f0 :
  filter_first_slot conf (l ++ [x]) f0 =
  if occurrences x l =? max_outliers conf * 2
  then Z.max (filter_first_slot conf l f0) x
  else filter_first_slot conf l f0.
Proof. unfold filter_first_slot. rewrite filter_step_counting. apply counting_loop_snoc. Qed.

(** ** Bitwise reading of the merged trace *)

Lemma bits_eq_of_iff a b :
  (∀ n, Z.testbit a n = true ↔ Z.testbit b n = true) → a = b.
Proof.
  intros H. apply Z.bits_inj. intros n. apply Bool.eq_true_iff_eq, H.
Qed.

Lemma or_all_testbit vs b :
  Z.testbit (or_all vs) b = true ↔ ∃ v, v ∈ vs ∧ Z.testbit v b = true.
Proof.
  induction vs as [|x vs IH]; simpl.
  - rewrite Z.bits_0. split; [discriminate|].
    intros (v & Hv & _). apply elem_of_nil in Hv. contradiction.
  - rewrite Z.lor_spec, Bool.orb_true_iff, IH. split.
    + intros [Hx|(v & Hv & Hb)].
      * exists x. split; [apply elem_of_cons; by left|exact Hx].
      * exists v. split; [apply elem_of_cons; by right|exact Hb].
    + intros (v & Hv & Hb). apply elem_of_cons in Hv as [->|Hv].
      * by left.
      * right. by exists v.
Qed.

Lemma merge_trace_list_testbit conf l b :
  0 ≤ max_outliers conf →
  Z.testbit (merge_trace_list conf l 0) b = true ↔
  ∃ v, v ∈ l ∧ max_outliers conf < occurrences v l ∧ Z.testbit v b = true.
Proof.
  intros Hmo. induction l as [|x l IH] using rev_ind.
  - rewrite merge_trace_list_nil, Z.bits_0. split; [discriminate|].
    intros (v & Hv & _). apply elem_of_nil in Hv. contradiction.
  - rewrite merge_trace_list_snoc. split.
    + intros Hb.
      assert (Z.testbit (merge_trace_list conf l 0) b = true ∨
              (occurrences x l = max_outliers conf ∧ Z.testbit x b = true))
        as [Hold|[Hc Hx]].
      { destruct (Z.eqb_spec (occurrences x l) (max_outliers conf)).
        - rewrite Z.lor_spec, Bool.orb_true_iff in Hb. destruct Hb; auto.
        - by left. }
      * apply IH in Hold as (v & Hv & Hc & Hvb). exists v. split_and!.
        -- apply elem_of_app. by left.
        -- rewrite occurrences_snoc. destruct (decide (x = v)); lia.
        -- exact Hvb.
      * exists x. split_and!.
        -- apply elem_of_app. right. apply list_elem_of_singleton. reflexivity.
        -- rewrite occurrences_snoc, decide_True by reflexivity. lia.
        -- exact Hx.
    + intros (v & Hv & Hc & Hvb). rewrite occurrences_snoc in Hc.
      destruct (decide (x = v)) as [->|Hne].
      * destruct (Z.eqb_spec (occurrences v l) (max_outliers conf)) as [E|E].
        -- rewrite Z.lor_spec, Hvb. apply Bool.orb_true_r.
        -- apply IH. exists v. split_and!; [|lia|exact Hvb].
           apply occurrences_pos_elem. lia.
      * assert (Z.testbit (merge_trace_list conf l 0) b = true) as Hold.
        { apply IH. exists v. split_and!; [|lia|exact Hvb].
          apply elem_of_app in Hv as [Hv|Hv]; [exact Hv|].
          apply list_elem_of_singleton in Hv. congruence. }
        destruct (_ =? _); [|exact Hold].
        rewrite Z.lor_spec, Hold. reflexivity.
Qed.

(** With a negative threshold no count ever equals it: nothing is merged. *)
Lemma merge_trace_list_negative conf l m0 :
  max_outliers conf < 0 → merge_trace_list conf l m0 = m0.
Proof.
  intros Hmo. induction l as [|x l IH] using rev_ind; [reflexivity|].
  rewrite merge_trace_list_snoc, IH.
  pose proof (occurrences_nonneg x l).
  destruct (Z.eqb_spec (occurrences x l) (max_outliers conf)); [lia|reflexivity].
Qed.

(** A history in which no value is frequent leaves the start value. *)
Lemma merge_trace_list_noise conf l m0 :
  (∀ v, occurrences v l ≤ max_outliers conf) → merge_trace_list conf l m0 = m0.
Proof.
  induction l as [|x l IH] using rev_ind; intros Hall; [reflexivity|].
  rewrite merge_trace_list_snoc.
  pose proof (Hall x) as Hx. rewrite occurrences_snoc, decide_True in Hx by reflexivity.
  destruct (Z.eqb_spec (occurrences x l) (max_outliers conf)); [lia|].
  apply IH. intros v. specialize (Hall v). rewrite occurrences_snoc in Hall.
  destruct (decide (x = v)); lia.
Qed.

Lemma merge_trace_list_perm conf l l' :
  l ≡ₚ l' → merge_trace_list conf l 0 = merge_trace_list conf l' 0.
Proof.
  intros Hp. destruct (Z.lt_ge_cases (max_outliers conf) 0) as [Hneg|Hmo].
  - by rewrite !merge_trace_list_negative.
  - apply bits_eq_of_iff. intros b. rewrite !merge_trace_list_testbit by exact Hmo.
    split; intros (v & Hv & Hc & Hb); exists v; split_and!; try exact Hb.
    + by rewrite <- Hp.
    + by rewrite <- (occurrences_perm v l l').
    + by rewrite Hp.
    + by rewrite (occurrences_perm v l l').
Qed.

Lemma merge_trace_list_frequent conf l :
  0 ≤ max_outliers conf →
  merge_trace_list conf l 0 = or_all (frequent_values conf l).
Proof.
  intros Hmo. apply bits_eq_of_iff. intros b.
  rewrite merge_trace_list_testbit, or_all_testbit by exact Hmo.
  unfold frequent_values.
  split; intros (v & Hv & H); exists v.
  - destruct H as [Hc Hb]. split; [|exact Hb].
    apply list_elem_of_filter. split; [exact Hc|]. by apply elem_of_remove_dups.
  - apply list_elem_of_filter in Hv as [Hc Hv]. rewrite elem_of_remove_dups in Hv.
    simpl in Hc. split_and!; assumption.
Qed.

Lemma merge_trace_list_without conf l v :
  0 ≤ max_outliers conf →
  merge_trace_list conf l 0 =
  if bool_decide (max_outliers conf < occurrences v l)
  then Z.lor (merge_trace_list conf (without v l) 0) v
  else merge_trace_list conf (without v l) 0.
Proof.
  intros Hmo. apply bits_eq_of_iff. intros b.
  assert (Z.testbit (merge_trace_list conf (without v l) 0) b = true ↔
          ∃ w, w ≠ v ∧ w ∈ l ∧ max_outliers conf < occurrences w l
               ∧ Z.testbit w b = true) as Hrest.
  { rewrite merge_trace_list_testbit by exact Hmo.
    split.
    - intros (w & Hw & Hc & Hb). apply list_elem_of_filter in Hw as [Hne Hw].
      simpl in Hne. rewrite occurrences_without, decide_False in Hc by exact Hne.
      exists w. split_and!; assumption.
    - intros (w & Hne & Hw & Hc & Hb). exists w. split_and!; [| |exact Hb].
      + apply list_elem_of_filter. split; assumption.
      + rewrite occurrences_without, decide_False by exact Hne. exact Hc. }
  rewrite merge_trace_list_testbit by exact Hmo.
  case_bool_decide as Hc.
  - rewrite Z.lor_spec, Bool.orb_true_iff, Hrest. split.
    + intros (w & Hw & Hcw & Hb). destruct (decide (w = v)) as [->|Hne].
      * by right.
      * left. exists w. split_and!; assumption.
    + intros [(w & Hne & Hw & Hcw & Hb)|Hb].
      * exists w. split_and!; assumption.
      * exists v. split_and!; [|exact Hc|exact Hb]. apply occurrences_pos_elem. lia.
  - rewrite Hrest. split.
    + intros (w & Hw & Hcw & Hb). exists w. split_and!; try assumption.
      intros ->. contradiction.
    + intros (w & Hne & Hw & Hcw & Hb). exists w. split_and!; assumption.
Qed.

(** ** The occurrence at which a value is merged *)

Lemma occurrences_app v l k :
  occurrences v (l ++ k) = occurrences v l + occurrences v k.
Proof. unfold occurrences. rewrite count_occ_app. lia. Qed.

Lemma occurrences_cons_eq v l : occurrences v (v :: l) = occurrences v l + 1.
Proof. unfold occurrences. rewrite count_occ_cons_eq by reflexivity. lia. Qed.

Lemma crossing_exists mo v l :
  0 ≤ mo → mo < occurrences v l →
  ∃ p s, l = p ++ v :: s ∧ occurrences v p = mo.
Proof.
  intros Hmo. induction l as [|x l IH] using rev_ind; intros Hc.
  - rewrite occurrences_nil in Hc. lia.
  - rewrite occurrences_snoc in Hc.
    destruct (decide (occurrences v l = mo ∧ x = v)) as [[E ->]|Hn].
    + exists l, []. split; [reflexivity|exact E].
    + destruct IH as (p & s & -> & Hp).
      { destruct (decide (x = v)); [|exact Hc].
        destruct (decide (occurrences v l = mo)); [tauto|lia]. }
      exists p, (s ++ [x]). split; [|exact Hp].
      by rewrite <- app_assoc.
Qed.

Lemma crossing_unique v p1 s1 p2 s2 :
  p1 ++ v :: s1 = p2 ++ v :: s2 → occurrences v p1 = occurrences v p2 → p1 = p2.
Proof.
  intros Heq Hocc.
  pose proof (occurrences_nonneg v) as Hnn.
  apply app_eq_inv in Heq as [(k & Hp & Hs)|(k & Hp & Hs)];
    (destruct k as [|y k]; [by rewrite app_nil_r in Hp|]);
    simpl in Hs; injection Hs as <- _; subst;
    rewrite occurrences_app, occurrences_cons_eq in Hocc;
    [specialize (Hnn k)|specialize (Hnn k)]; lia.
Qed.

(** ** The batch-level lists *)

Lemma merged_traces_length conf inputs trs :
  length (merged_traces conf inputs trs) = length inputs.
Proof. unfold merged_traces. by rewrite length_imap, length_replicate. Qed.

Lemma merged_traces_lookup conf inputs trs i l :
  length trs = length inputs → trs !! i = Some l →
  merged_traces conf inputs trs !! i = Some (merge_trace_list conf l 0).
Proof.
  intros Hlen Hl. unfold merged_traces.
  rewrite list_lookup_imap, lookup_replicate_2; [simpl; by rewrite Hl|].
  rewrite <- Hlen. by eapply lookup_lt_Some.
Qed.

Lemma filtered_pfc_readings_length conf inputs pfcs :
  length (filtered_pfc_readings conf inputs pfcs) = length inputs.
Proof. unfold filtered_pfc_readings. by rewrite length_imap, length_replicate. Qed.

Lemma filtered_pfc_readings_lookup conf inputs pfcs i r :
  length pfcs = length inputs → pfcs !! i = Some r →
  filtered_pfc_readings conf inputs pfcs !! i =
  Some (filter_first_slot conf (pfc_0 r) 0, 0, 0).
Proof.
  intros Hlen Hr. unfold filtered_pfc_readings.
  rewrite list_lookup_imap, lookup_replicate_2; [simpl; by rewrite Hr|].
  rewrite <- Hlen. by eapply lookup_lt_Some.
Qed.

(** ** The effect monad *)

Lemma natural_ret {A} (a : A) : natural (mret a).
Proof. intros log. unfold run, mret, M_ret. simpl. by rewrite app_nil_r. Qed.

Lemma natural_raise {A} e : natural (raise (A:=A) e).
Proof. intros log. unfold run, raise. simpl. by rewrite app_nil_r. Qed.

Lemma natural_lift {A} (r : result A) : natural (lift r).
Proof. intros log. unfold run, lift. simpl. by rewrite app_nil_r. Qed.

Lemma natural_emit ev : natural (emit ev).
Proof. intros log. reflexivity. Qed.

Lemma run_bind {A B} (m : M A) (f : A → M B) :
  natural m → (∀ a, natural (f a)) →
  run (m ≫= f) =
  match run m with
  | (Ok a, l) => ((run (f a)).1, l ++ (run (f a)).2)
  | (Raise e, l) => (Raise e, l)
  end.
Proof.
  intros Hm Hf. unfold run at 1, mbind, M_bind.
  destruct (run m) as [[a|e] l] eqn:E; unfold run in E; rewrite E; [|reflexivity].
  apply Hf.
Qed.

Lemma natural_bind {A B} (m : M A) (f : A → M B) :
  natural m → (∀ a, natural (f a)) → natural (m ≫= f).
Proof.
  intros Hm Hf log. rewrite run_bind by assumption.
  unfold mbind, M_bind. rewrite (Hm log).
  destruct (run m) as [[a|e] l]; simpl; [|reflexivity].
  rewrite (Hf a (log ++ l)). by rewrite app_assoc.
Qed.

Create HintDb natural.
#[global] Hint Resolve natural_ret natural_raise natural_lift natural_emit
  natural_bind : natural.

Ltac natural :=
  repeat first
    [ progress auto with natural
    | apply natural_bind; [|intros ?]
    | match goal with |- natural (if ?b then _ else _) => destruct b end
    | match goal with |- natural (LOGGER_error _) => apply natural_raise end ].

Lemma natural_measure_round conf dev k st : natural (measure_round conf dev k st).
Proof. unfold measure_round. natural. Qed.

Lemma natural_measure_rounds conf dev n st0 : natural (measure_rounds conf dev n st0).
Proof.
  induction n as [|n IH]; simpl; [natural|].
  apply natural_bind; [exact IH|]. intros st. apply natural_measure_round.
Qed.

Lemma natural_check_module dev : natural (check_module dev).
Proof. unfold check_module. natural. Qed.

Lemma natural_load_inputs dev inputs : natural (load_inputs dev inputs).
Proof. unfold load_inputs. natural. Qed.

Lemma natural_single_measurement coverage st :
  natural (single_measurement coverage st).
Proof. unfold single_measurement. natural. Qed.

Lemma natural_remove_outliers conf coverage inputs st :
  natural (remove_outliers conf coverage inputs st).
Proof. unfold remove_outliers. natural. Qed.

#[global] Hint Resolve natural_measure_round natural_measure_rounds
  natural_check_module natural_load_inputs natural_single_measurement
  natural_remove_outliers : natural.

(** ** Recording one measurement *)

Lemma alter_alter {A} (f g : A → A) i (l : list A) :
  alter f i (alter g i l) = alter (f ∘ g) i l.
Proof.
  apply list_eq. intros j. destruct (decide (i = j)) as [->|Hne].
  - rewrite !list_lookup_alter_eq. by destruct (l !! j).
  - by rewrite !list_lookup_alter_ne.
Qed.

Lemma process_row_mk_row conf i r st :
  (i < length (traces st))%nat → (i < length (pfc_readings st))%nat →
  process_row conf i (mk_row r) st = Ok (record_row conf i r st).
Proof.
  intros Ht Hp. unfold process_row, update_at, mk_row; simpl.
  repeat (rewrite decide_True by (rewrite ?length_alter; assumption); simpl).
  unfold record_row. by rewrite !alter_alter.
Qed.

Lemma process_row_overflow conf i r st :
  (length (traces st) ≤ i)%nat →
  process_row conf i (mk_row r) st = Raise IndexError.
Proof.
  intros Ht. unfold process_row, update_at, mk_row; simpl.
  destruct (decide (i < length (traces st))%nat); [lia|reflexivity].
Qed.

Lemma process_row_Ok_inv conf i row st st' :
  process_row conf i row st = Ok st' →
  ∃ r, row = mk_row r ∧ (i < length (traces st))%nat
       ∧ (i < length (pfc_readings st))%nat ∧ st' = record_row conf i r st.
Proof.
  intros H.
  destruct row as [[a|] [b|] [c|] [d|]];
    unfold process_row, update_at in H; simpl in H;
    repeat (match type of H with
            | context [decide ?P] => destruct (decide P); simpl in H
            end);
    try discriminate.
  exists (a, b, c, d). split; [reflexivity|]. split; [assumption|].
  split; [assumption|].
  injection H as <-. unfold record_row; simpl. by rewrite !alter_alter.
Qed.

Lemma record_row_lengths conf i r st :
  length (traces (record_row conf i r st)) = length (traces st) ∧
  length (pfc_readings (record_row conf i r st)) = length (pfc_readings st).
Proof. unfold record_row; simpl. by rewrite !length_alter. Qed.

Lemma record_rows_lengths conf rs : ∀ i st,
  length (traces (record_rows conf i rs st)) = length (traces st) ∧
  length (pfc_readings (record_rows conf i rs st)) = length (pfc_readings st).
Proof.
  induction rs as [|r rs IH]; intros i st; simpl; [done|].
  destruct (IH (S i) (record_row conf i r st)) as [-> ->].
  apply record_row_lengths.
Qed.

Lemma process_rows_mk_row conf rs : ∀ i st,
  (i + length rs ≤ length (traces st))%nat →
  (i + length rs ≤ length (pfc_readings st))%nat →
  process_rows conf i (mk_row <$> rs) st = Ok (record_rows conf i rs st).
Proof.
  induction rs as [|r rs IH]; intros i st Ht Hp; simpl in *; [reflexivity|].
  rewrite process_row_mk_row by lia. simpl.
  destruct (record_row_lengths conf i r st) as [E1 E2].
  apply IH; lia.
Qed.

Lemma process_rows_overflow conf rs : ∀ i st,
  length (pfc_readings st) = length (traces st) →
  (i ≤ length (traces st) < i + length rs)%nat →
  process_rows conf i (mk_row <$> rs) st = Raise IndexError.
Proof.
  induction rs as [|r rs IH]; intros i st Hlen Hi; simpl in *; [lia|].
  destruct (decide (i < length (traces st))%nat) as [Hlt|Hge].
  - rewrite process_row_mk_row by lia. simpl.
    destruct (record_row_lengths conf i r st) as [E1 E2].
    apply IH; lia.
  - rewrite process_row_overflow by lia. reflexivity.
Qed.

Lemma process_rows_Ok_inv conf rows0 : ∀ i st st',
  process_rows conf i rows0 st = Ok st' →
  ∃ rs, rows0 = mk_row <$> rs ∧ st' = record_rows conf i rs st
        ∧ (rs = [] ∨ (i + length rs ≤ length (traces st))%nat
                     ∧ (i + length rs ≤ length (pfc_readings st))%nat).
Proof.
  induction rows0 as [|row rows0 IH]; intros i st st' H; simpl in H.
  - exists []. split; [reflexivity|]. split; [by injection H|by left].
  - destruct (process_row conf i row st) as [st1|e] eqn:E; [|discriminate].
    simpl in H.
    apply process_row_Ok_inv in E as (r & -> & Ht & Hp & ->).
    apply IH in H as (rs & -> & -> & Hb).
    exists (r :: rs). split; [reflexivity|]. split; [reflexivity|]. right.
    destruct (record_row_lengths conf i r st) as [E1 E2].
    destruct Hb as [->|[H1 H2]]; simpl; lia.
Qed.

Lemma alter_from_lookup {A B} (f : B → A → A) rs : ∀ i (l : list A) j,
  alter_from f i rs l !! j =
  match (if decide (i ≤ j)%nat then rs !! (j - i)%nat else None) with
  | Some r => f r <$> l !! j
  | None => l !! j
  end.
Proof.
  induction rs as [|r rs IH]; intros i l j; simpl.
  - by destruct (decide (i ≤ j)%nat).
  - rewrite IH. destruct (decide (S i ≤ j)%nat) as [Hlt|Hge].
    + rewrite decide_True by lia.
      replace (j - i)%nat with (S (j - S i)) by lia. simpl.
      rewrite list_lookup_alter_ne by lia. reflexivity.
    + destruct (decide (i ≤ j)%nat) as [Hle|Hgt].
      * assert (j = i) as -> by lia. rewrite Nat.sub_diag. simpl.
        apply list_lookup_alter_eq.
      * rewrite list_lookup_alter_ne by lia. reflexivity.
Qed.

Lemma alter_from_0_lookup {A B} (f : B → A → A) rs (l : list A) j :
  alter_from f 0 rs l !! j =
  match rs !! j with
  | Some r => f r <$> l !! j
  | None => l !! j
  end.
Proof.
  rewrite alter_from_lookup, decide_True by lia. by rewrite Nat.sub_0_r.
Qed.

Lemma record_rows_traces conf rs : ∀ i st,
  traces (record_rows conf i rs st) =
  alter_from (λ r h, h ++ [recorded_trace conf r.1.1.1]) i rs (traces st).
Proof. induction rs as [|r rs IH]; intros i st; simpl; [done|]. by rewrite IH. Qed.

Lemma record_rows_pfc_readings conf rs : ∀ i st,
  pfc_readings (record_rows conf i rs st) =
  alter_from (λ r p, {| pfc_0 := pfc_0 p ++ [r.1.1.2];
                        pfc_1 := pfc_1 p ++ [r.1.2];
                        pfc_2 := pfc_2 p ++ [r.2] |}) i rs (pfc_readings st).
Proof. induction rs as [|r rs IH]; intros i st; simpl; [done|]. by rewrite IH. Qed.

(** ** The measurement loop *)

Lemma run_measure_round conf dev k st :
  run (measure_round conf dev k st) =
  (if trace_not_produced (measure dev k) then Raise HardwareTraceNotProduced
   else process_rows conf 0 (rows (measure dev k)) st,
   [RunMeasurement (measurement_cpu conf)]).
Proof.
  unfold measure_round. rewrite run_bind.
  - destruct (trace_not_produced (measure dev k)); reflexivity.
  - natural.
  - intros []. natural.
Qed.

Lemma run_measure_rounds_S conf dev n st0 :
  run (measure_rounds conf dev (S n) st0) =
  match run (measure_rounds conf dev n st0) with
  | (Ok st, l) =>
      (if trace_not_produced (measure dev n) then Raise HardwareTraceNotProduced
       else process_rows conf 0 (rows (measure dev n)) st,
       l ++ [RunMeasurement (measurement_cpu conf)])
  | (Raise e, l) => (Raise e, l)
  end.
Proof.
  simpl. rewrite run_bind; [|natural|intros ?; natural].
  destruct (run (measure_rounds conf dev n st0)) as [[st|e] l]; [|reflexivity].
  by rewrite run_measure_round.
Qed.

Lemma histories_after_0 conf dev inputs :
  histories_after conf dev inputs 0 = Ok (initial_histories inputs).
Proof. reflexivity. Qed.

Lemma histories_after_S conf dev inputs k :
  histories_after conf dev inputs (S k) =
  match histories_after conf dev inputs k with
  | Ok st =>
      if trace_not_produced (measure dev k) then Raise HardwareTraceNotProduced
      else process_rows conf 0 (rows (measure dev k)) st
  | Raise e => Raise e
  end.
Proof.
  unfold histories_after. rewrite run_measure_rounds_S.
  by destruct (run (measure_rounds conf dev k _)) as [[st|e] l].
Qed.

Lemma histories_after_Raise conf dev inputs k n e :
  histories_after conf dev inputs k = Raise e → (k ≤ n)%nat →
  histories_after conf dev inputs n = Raise e.
Proof.
  intros Hk Hle. induction Hle as [|n Hle IH]; [exact Hk|].
  by rewrite histories_after_S, IH.
Qed.


(** A completed iteration: the header had the trace column, every row
    parsed, and the rows were recorded from input 0 on. *)
Lemma histories_after_S_Ok conf dev inputs k st :
  histories_after conf dev inputs (S k) = Ok st →
  ∃ st0 rs,
    histories_after conf dev inputs k = Ok st0 ∧
    trace_not_produced (measure dev k) = false ∧
    rows (measure dev k) = mk_row <$> rs ∧
    st = record_rows conf 0 rs st0 ∧
    (rs = [] ∨ (length rs ≤ length (traces st0))%nat
               ∧ (length rs ≤ length (pfc_readings st0))%nat).
Proof.
  rewrite histories_after_S. intros H.
  destruct (histories_after conf dev inputs k) as [st0|e]; [|discriminate].
  destruct (trace_not_produced (measure dev k)); [discriminate|].
  apply process_rows_Ok_inv in H as (rs & Hrs & -> & Hb).
  exists st0, rs. split_and!; try done.
Qed.

Lemma run_measure_rounds_log conf dev n st0 :
  ∃ m, (m ≤ n)%nat ∧
       (run (measure_rounds conf dev n st0)).2 =
       replicate m (RunMeasurement (measurement_cpu conf)) ∧
       (∀ st, (run (measure_rounds conf dev n st0)).1 = Ok st → m = n).
Proof.
  induction n as [|n (m & Hm & Hlog & HOk)].
  - exists 0%nat. split_and!; done.
  - rewrite run_measure_rounds_S.
    destruct (run (measure_rounds conf dev n st0)) as [[st|e] l]; simpl in *.
    + exists (S n). split_and!; [lia| |done].
      rewrite Hlog, (HOk st eq_refl). by rewrite replicate_S_end.
    + exists m. split_and!; [lia|done|done].
Qed.

(** The histories stay aligned with the batch, and no history is longer
    than the number of iterations done. *)
Lemma histories_after_aligned conf dev inputs k st :
  histories_after conf dev inputs k = Ok st →
  length (traces st) = length inputs ∧
  length (pfc_readings st) = length inputs ∧
  Forall (λ h, (length h ≤ k)%nat) (traces st) ∧
  Forall (λ p, (length (pfc_0 p) ≤ k)%nat ∧ (length (pfc_1 p) ≤ k)%nat
               ∧ (length (pfc_2 p) ≤ k)%nat) (pfc_readings st).
Proof.
  revert st. induction k as [|k IH]; intros st H.
  - rewrite histories_after_0 in H. injection H as <-. simpl.
    rewrite !length_replicate. split_and!; try reflexivity.
    + by apply Forall_replicate.
    + by apply Forall_replicate.
  - apply histories_after_S_Ok in H as (st0 & rs & H0 & _ & _ & -> & _).
    destruct (IH st0 H0) as (Ht & Hp & Hft & Hfp).
    destruct (record_rows_lengths conf rs 0 st0) as [-> ->].
    split_and!; try assumption.
    + rewrite record_rows_traces. apply Forall_lookup. intros j h.
      rewrite alter_from_0_lookup.
      rewrite Forall_lookup in Hft.
      destruct (rs !! j) as [r|], (traces st0 !! j) as [h0|] eqn:E;
        simpl; intros [= <-]; specialize (Hft j _ E); simpl in Hft;
        rewrite ?length_app; simpl; lia.
    + rewrite record_rows_pfc_readings. apply Forall_lookup. intros j p.
      rewrite alter_from_0_lookup.
      rewrite Forall_lookup in Hfp.
      destruct (rs !! j) as [r|], (pfc_readings st0 !! j) as [p0|] eqn:E;
        simpl; intros [= <-]; specialize (Hfp j _ E); simpl in *;
        rewrite ?length_app; simpl; lia.
Qed.

(** Every recorded trace is the reading of the row of its own input in
    some earlier iteration, after [recorded_trace]. *)
Lemma histories_after_provenance conf dev inputs k st j h t :
  histories_after conf dev inputs k = Ok st →
  traces st !! j = Some h → t ∈ h →
  ∃ k' r, (k' < k)%nat ∧ rows (measure dev k') !! j = Some (mk_row r)
          ∧ t = recorded_trace conf r.1.1.1.
Proof.
  revert st h. induction k as [|k IH]; intros st h H Hj Ht.
  - rewrite histories_after_0 in H. injection H as <-. simpl in Hj.
    apply lookup_replicate in Hj as [-> _]. by apply elem_of_nil in Ht.
  - apply histories_after_S_Ok in H as (st0 & rs & H0 & _ & Hrows & -> & _).
    rewrite record_rows_traces, alter_from_0_lookup in Hj.
    assert (∀ h0, traces st0 !! j = Some h0 → t ∈ h0 →
                  ∃ k' r, (k' < S k)%nat ∧
                    rows (measure dev k') !! j = Some (mk_row r) ∧
                    t = recorded_trace conf r.1.1.1) as Hold.
    { intros h0 E Hin. destruct (IH st0 h0 H0 E Hin) as (k' & r & ? & ? & ?).
      exists k', r. split_and!; [lia|done|done]. }
    destruct (rs !! j) as [r|] eqn:Er; [|by eapply Hold].
    destruct (traces st0 !! j) as [h0|] eqn:E; [|discriminate].
    simpl in Hj. injection Hj as <-.
    apply elem_of_app in Ht as [Ht|Ht]; [by eapply Hold|].
    apply list_elem_of_singleton in Ht as ->.
    exists k, r. split_and!; [lia| |reflexivity].
    by rewrite Hrows, list_lookup_fmap, Er.
Qed.

(** ** The whole call *)

Lemma run_check_module dev :
  run (check_module dev) =
  (if module_loaded dev then Ok tt
   else Raise (LoggerError "x86 Intel Executor: kernel module not loaded"),
   [IsFile]).
Proof. unfold check_module, run. by destruct (module_loaded dev). Qed.

Lemma run_load_inputs dev inputs :
  run (load_inputs dev inputs) =
  (if String.eqb (n_inputs_readback dev) zero_line
   then Raise (LoggerError "Failure loading inputs!") else Ok tt,
   [WriteNInputs (length inputs); WriteInputs (concat (tobytes <$> inputs));
    ReadNInputs]).
Proof. unfold load_inputs, run. by destruct (String.eqb _ _). Qed.

Lemma run_trace_test_case_nil conf coverage dev n0 :
  run (trace_test_case conf coverage dev [] n0) = (Ok [], []).
Proof. reflexivity. Qed.

Lemma run_trace_test_case conf coverage dev inputs n0 :
  inputs ≠ [] →
  run (trace_test_case conf coverage dev inputs n0) =
  if module_loaded dev then
    if String.eqb (n_inputs_readback dev) zero_line
    then (Raise (LoggerError "Failure loading inputs!"), prelude inputs)
    else
      let n := effective_rounds conf n0 in
      match run (measure_rounds conf dev (Z.to_nat n) (initial_histories inputs)) with
      | (Ok st, l) =>
          let out := run (if n =? 1 then single_measurement coverage st
                          else remove_outliers conf coverage inputs st) in
          (out.1, prelude inputs ++ l ++ out.2)
      | (Raise e, l) => (Raise e, prelude inputs ++ l)
      end
  else (Raise (LoggerError "x86 Intel Executor: kernel module not loaded"),
        [IsFile]).
Proof.
  intros Hne. destruct inputs as [|i0 inputs]; [done|].
  unfold trace_test_case.
  rewrite run_bind; [|natural|intros ?; natural].
  rewrite run_check_module. destruct (module_loaded dev); [|reflexivity].
  rewrite run_bind; [|natural|intros ?; natural].
  rewrite run_load_inputs. destruct (String.eqb _ _); [reflexivity|].
  rewrite run_bind; [|natural|intros ?; natural].
  cbv zeta.
  destruct (run (measure_rounds _ _ _ _)) as [[st|e] l]; reflexivity.
Qed.

Lemma run_remove_outliers conf coverage inputs st :
  run (remove_outliers conf coverage inputs st) =
  (Ok (merged_traces conf inputs (traces st)),
   if coverage
   then [ExecutorHook (filtered_pfc_readings conf inputs (pfc_readings st))]
   else []).
Proof. unfold remove_outliers, run. by destruct coverage. Qed.

Lemma run_single_measurement coverage st :
  run (single_measurement coverage st) =
  if coverage then
    match comprehension raw_triple (pfc_readings st) with
    | Ok payload => (comprehension first (traces st), [ExecutorHook payload])
    | Raise e => (Raise e, [])
    end
  else (comprehension first (traces st), []).
Proof.
  unfold single_measurement, run. destruct coverage; [|reflexivity].
  unfold mbind, M_bind, lift, emit.
  by destruct (comprehension raw_triple (pfc_readings st)).
Qed.

Lemma histories_after_run conf dev inputs n st :
  histories_after conf dev inputs n = Ok st →
  run (measure_rounds conf dev n (initial_histories inputs)) =
  (Ok st, replicate n (RunMeasurement (measurement_cpu conf))).
Proof.
  unfold histories_after. intros H.
  destruct (run_measure_rounds_log conf dev n (initial_histories inputs))
    as (m & _ & Hlog & HOk).
  rewrite (HOk st H) in Hlog.
  destruct (run (measure_rounds conf dev n (initial_histories inputs))).
  simpl in *. congruence.
Qed.

Lemma device_ready_true dev :
  device_ready dev = true →
  module_loaded dev = true ∧ String.eqb (n_inputs_readback dev) zero_line = false.
Proof.
  unfold device_ready. intros [? ?%Bool.negb_true_iff]%andb_prop. done.
Qed.

(** The path through lines 129-161. *)
Lemma run_trace_test_case_multi conf coverage dev inputs n0 st :
  inputs ≠ [] → device_ready dev = true →
  effective_rounds conf n0 ≠ 1 →
  histories_after conf dev inputs (Z.to_nat (effective_rounds conf n0)) = Ok st →
  run (trace_test_case conf coverage dev inputs n0) =
  (Ok (merged_traces conf inputs (traces st)),
   prelude inputs
   ++ replicate (Z.to_nat (effective_rounds conf n0))
                (RunMeasurement (measurement_cpu conf))
   ++ if coverage
      then [ExecutorHook (filtered_pfc_readings conf inputs (pfc_readings st))]
      else []).
Proof.
  intros Hne [Hl Ha]%device_ready_true Hn Hst.
  rewrite run_trace_test_case by exact Hne. rewrite Hl, Ha. cbv zeta.
  rewrite (histories_after_run _ _ _ _ _ Hst).
  apply Z.eqb_neq in Hn. rewrite Hn, run_remove_outliers. reflexivity.
Qed.

(** * The claims *)

(** ** Trace merge *)

(** The merged trace that the call returns for input [i]. *)
Lemma trace_test_case_merged conf coverage dev inputs n0 st i l :
  device_ready dev = true →
  effective_rounds conf n0 ≠ 1 →
  histories_after conf dev inputs (Z.to_nat (effective_rounds conf n0)) = Ok st →
  traces st !! i = Some l →
  ∃ res, (run (trace_test_case conf coverage dev inputs n0)).1 = Ok res
         ∧ res !! i = Some (merge_trace_list conf l 0).
Proof.
  intros Hready Hn Hst Hl.
  destruct (histories_after_aligned _ _ _ _ _ Hst) as (Hlen & _).
  assert (inputs ≠ []) as Hne.
  { intros ->. apply lookup_lt_Some in Hl. simpl in Hlen. lia. }
  rewrite (run_trace_test_case_multi _ _ _ _ _ _ Hne Hready Hn Hst).
  eexists. split; [reflexivity|].
  by apply merged_traces_lookup.
Qed.

(** C1. In the multi-measurement path, for the history [l] of input [i]
    and any value [v], with 0 <= max_outliers: the merged trace returned
    for the input is the merge of the history without [v], OR-ed with [v]
    exactly when [v] occurs more than max_outliers times; while the loop
    runs, an occurrence of [v] changes the merged value (by OR with [v])
    exactly when it brings the count of [v] to max_outliers + 1; such an
    occurrence exists if and only if [v] occurs more than max_outliers
    times, and it is unique; and one more [v] after that leaves the result
    unchanged. *)
Theorem occurrence_threshold conf coverage dev inputs n0 st i l v :
  0 ≤ max_outliers conf →
  device_ready dev = true →
  effective_rounds conf n0 ≠ 1 →
  histories_after conf dev inputs (Z.to_nat (effective_rounds conf n0)) = Ok st →
  traces st !! i = Some l →
  (∃ res, (run (trace_test_case conf coverage dev inputs n0)).1 = Ok res
     ∧ res !! i =
       Some (if bool_decide (max_outliers conf < occurrences v l)
             then Z.lor (merge_trace_list conf (without v l) 0) v
             else merge_trace_list conf (without v l) 0))
  ∧ (∀ p s, l = p ++ v :: s →
       merge_trace_list conf (p ++ [v]) 0 =
       if occurrences v (p ++ [v]) =? max_outliers conf + 1
       then Z.lor (merge_trace_list conf p 0) v
       else merge_trace_list conf p 0)
  ∧ (max_outliers conf < occurrences v l ↔
     ∃ p s, l = p ++ v :: s
            ∧ occurrences v (p ++ [v]) = max_outliers conf + 1)
  ∧ (∀ p1 s1 p2 s2,
       l = p1 ++ v :: s1 → l = p2 ++ v :: s2 →
       occurrences v (p1 ++ [v]) = max_outliers conf + 1 →
       occurrences v (p2 ++ [v]) = max_outliers conf + 1 → p1 = p2)
  ∧ (max_outliers conf < occurrences v l →
     merge_trace_list conf (l ++ [v]) 0 = merge_trace_list conf l 0).
Proof.
  intros Hmo Hready Hn Hst Hl.
  assert (∀ p, occurrences v (p ++ [v]) = occurrences v p + 1) as Hsnoc.
  { intros p. by rewrite occurrences_snoc, decide_True. }
  split_and!.
  - destruct (trace_test_case_merged conf coverage _ _ _ _ _ _ Hready Hn Hst Hl)
      as (res & Hres & Hi).
    exists res. split; [exact Hres|].
    by rewrite Hi, (merge_trace_list_without conf l v Hmo).
  - intros p s _. rewrite merge_trace_list_snoc, Hsnoc.
    destruct (Z.eqb_spec (occurrences v p) (max_outliers conf)),
             (Z.eqb_spec (occurrences v p + 1) (max_outliers conf + 1));
      try reflexivity; lia.
  - split.
    + intros Hc. destruct (crossing_exists _ v l Hmo Hc) as (p & s & E & Hp).
      exists p, s. split; [exact E|]. rewrite Hsnoc. lia.
    + intros (p & s & -> & Hp). rewrite Hsnoc in Hp.
      rewrite occurrences_app, occurrences_cons_eq.
      pose proof (occurrences_nonneg v s). lia.
  - intros p1 s1 p2 s2 E1 E2 H1 H2. rewrite Hsnoc in H1, H2.
    apply (crossing_unique v p1 s1 p2 s2); [congruence|lia].
  - intros Hc. rewrite merge_trace_list_snoc.
    destruct (Z.eqb_spec (occurrences v l) (max_outliers conf)); [lia|done].
Qed.

Lemma occurrence_threshold_witness :
  ∃ res, (run (trace_test_case scenario_conf true scenario_device
                 scenario_inputs 0)).1 = Ok res
    ∧ res !! 0%nat = Some (Z.lor (merge_trace_list scenario_conf [1; 1] 0) 2).
Proof.
  apply (occurrence_threshold scenario_conf true scenario_device
           scenario_inputs 0 scenario_histories 0 [1; 1; 2; 2; 2] 2).
  - simpl. lia.
  - reflexivity.
  - vm_compute. discriminate.
  - vm_compute. reflexivity.
  - reflexivity.
Defined.

(** C8. In the multi-measurement path, an input whose every trace value
    occurs max_outliers times or fewer gets the merged trace 0, and the
    call returns normally. *)
Theorem pure_noise_is_zero conf coverage dev inputs n0 st i l :
  device_ready dev = true →
  effective_rounds conf n0 ≠ 1 →
  histories_after conf dev inputs (Z.to_nat (effective_rounds conf n0)) = Ok st →
  traces st !! i = Some l →
  (∀ v, occurrences v l ≤ max_outliers conf) →
  ∃ res, (run (trace_test_case conf coverage dev inputs n0)).1 = Ok res
         ∧ res !! i = Some 0.
Proof.
  intros Hready Hn Hst Hl Hnoise.
  destruct (trace_test_case_merged conf coverage _ _ _ _ _ _ Hready Hn Hst Hl)
    as (res & Hres & Hi).
  exists res. split; [exact Hres|].
  by rewrite Hi, merge_trace_list_noise.
Qed.

Lemma pure_noise_is_zero_witness :
  ∃ res, (run (trace_test_case scenario_conf true scenario_device
                 scenario_inputs 0)).1 = Ok res
         ∧ res !! 1%nat = Some 0.
Proof.
  apply (pure_noise_is_zero scenario_conf true scenario_device scenario_inputs
           0 scenario_histories 1 [8; 9; 10; 11; 12]).
  - reflexivity.
  - vm_compute. discriminate.
  - vm_compute. reflexivity.
  - reflexivity.
  - intros v. unfold occurrences. cbn [count_occ].
    change (max_outliers scenario_conf) with 1.
    repeat destruct (Z.eq_dec _ v); lia.
Defined.

(** C10. The merged trace of an input depends only on the multiset of its
    history: two runs of the multi-measurement path in which the history
    of input [i] is the same up to the order of the measurements return
    the same merged trace for it; and with 0 <= max_outliers that value is
    the bitwise OR of the distinct values that occur more than
    max_outliers times. *)
Theorem merged_trace_multiset conf coverage dev dev' inputs n0 st st' i l l' :
  device_ready dev = true → device_ready dev' = true →
  effective_rounds conf n0 ≠ 1 →
  histories_after conf dev inputs (Z.to_nat (effective_rounds conf n0)) = Ok st →
  histories_after conf dev' inputs (Z.to_nat (effective_rounds conf n0)) = Ok st' →
  traces st !! i = Some l → traces st' !! i = Some l' →
  ∃ res res',
    (run (trace_test_case conf coverage dev inputs n0)).1 = Ok res
    ∧ (run (trace_test_case conf coverage dev' inputs n0)).1 = Ok res'
    ∧ (l ≡ₚ l' → res !! i = res' !! i)
    ∧ (0 ≤ max_outliers conf →
       res !! i = Some (or_all (frequent_values conf l))).
Proof.
  intros Hready Hready' Hn Hst Hst' Hl Hl'.
  destruct (trace_test_case_merged conf coverage _ _ _ _ _ _ Hready Hn Hst Hl)
    as (res & Hres & Hi).
  destruct (trace_test_case_merged conf coverage _ _ _ _ _ _ Hready' Hn Hst' Hl')
    as (res' & Hres' & Hi').
  exists res, res'. split_and!; [exact Hres|exact Hres'| |].
  - intros Hp. by rewrite Hi, Hi', (merge_trace_list_perm conf l l' Hp).
  - intros Hmo. by rewrite Hi, (merge_trace_list_frequent conf l Hmo).
Qed.

Lemma merged_trace_multiset_witness :
  ∃ res res',
    (run (trace_test_case scenario_conf true scenario_device
            scenario_inputs 0)).1 = Ok res
    ∧ (run (trace_test_case scenario_conf true reversed_device
              scenario_inputs 0)).1 = Ok res'
    ∧ res !! 0%nat = res' !! 0%nat
    ∧ res !! 0%nat = Some (or_all (frequent_values scenario_conf [1; 1; 2; 2; 2])).
Proof.
  destruct (merged_trace_multiset scenario_conf true scenario_device
              reversed_device scenario_inputs 0
              scenario_histories reversed_histories
              0 [1; 1; 2; 2; 2] [2; 2; 2; 1; 1])
    as (res & res' & Hres & Hres' & Hperm & Hor).
  - reflexivity.
  - reflexivity.
  - vm_compute. discriminate.
  - vm_compute. reflexivity.
  - vm_compute. reflexivity.
  - reflexivity.
  - reflexivity.
  - exists res, res'. split_and!; [exact Hres|exact Hres'| |].
    + apply Hperm.
      apply (Permutation_count_occ Z.eq_dec). intros x. cbn [count_occ].
      repeat destruct (Z.eq_dec _ x); lia.
    + apply Hor. simpl. lia.
Defined.

Lemma hook_calls_app l1 l2 : hook_calls (l1 ++ l2) = hook_calls l1 ++ hook_calls l2.
Proof. apply omap_app. Qed.

Lemma hook_calls_prelude inputs : hook_calls (prelude inputs) = [].
Proof. reflexivity. Qed.

Lemma hook_calls_measurements n cpu : hook_calls (replicate n (RunMeasurement cpu)) = [].
Proof. induction n as [|n IH]; [reflexivity|exact IH]. Qed.

Lemma hook_calls_log inputs n cpu l :
  hook_calls (prelude inputs ++ replicate n (RunMeasurement cpu) ++ l) =
  hook_calls l.
Proof.
  by rewrite !hook_calls_app, hook_calls_prelude, hook_calls_measurements.
Qed.

(** ** Counter filter *)

(** C6. In the multi-measurement path the coverage hook receives, for
    input [i], the triple whose first slot is the counting loop over the
    first counter list and whose second and third slots are 0: the loop
    fires when the count of the current reading reaches
    2 * max_outliers + 1 and then takes the maximum of the filtered value
    and the reading; every row is appended to all three lists, yet the
    second and third lists do not enter the result. *)
Theorem counter_filter_first_slot conf dev inputs n0 st i p :
  device_ready dev = true →
  effective_rounds conf n0 ≠ 1 →
  histories_after conf dev inputs (Z.to_nat (effective_rounds conf n0)) = Ok st →
  pfc_readings st !! i = Some p →
  let filtered := filtered_pfc_readings conf inputs (pfc_readings st) in
  hook_calls (run (trace_test_case conf true dev inputs n0)).2 = [filtered]
  ∧ filtered !! i = Some (filter_first_slot conf (pfc_0 p) 0, 0, 0)
  ∧ filter_first_slot conf [] 0 = 0
  ∧ (∀ l x,
       filter_first_slot conf (l ++ [x]) 0 =
       if occurrences x (l ++ [x]) =? 2 * max_outliers conf + 1
       then Z.max (filter_first_slot conf l 0) x
       else filter_first_slot conf l 0)
  ∧ (∀ r st0 p0,
       (i < length (traces st0))%nat → pfc_readings st0 !! i = Some p0 →
       ∃ st1, process_row conf i (mk_row r) st0 = Ok st1 ∧
              pfc_readings st1 !! i =
              Some {| pfc_0 := pfc_0 p0 ++ [r.1.1.2];
                      pfc_1 := pfc_1 p0 ++ [r.1.2];
                      pfc_2 := pfc_2 p0 ++ [r.2] |}).
Proof.
  intros Hready Hn Hst Hp filtered.
  destruct (histories_after_aligned _ _ _ _ _ Hst) as (_ & Hlen & _).
  assert (inputs ≠ []) as Hne.
  { intros ->. apply lookup_lt_Some in Hp. simpl in Hlen. lia. }
  split_and!.
  - rewrite (run_trace_test_case_multi _ _ _ _ _ _ Hne Hready Hn Hst). cbn [snd].
    by rewrite !hook_calls_app, hook_calls_prelude, hook_calls_measurements.
  - by apply filtered_pfc_readings_lookup.
  - reflexivity.
  - intros l x. rewrite filter_first_slot_snoc, occurrences_snoc.
    rewrite decide_True by reflexivity.
    destruct (Z.eqb_spec (occurrences x l) (max_outliers conf * 2)),
             (Z.eqb_spec (occurrences x l + 1) (2 * max_outliers conf + 1));
      try reflexivity; lia.
  - intros r st0 p0 Hi Hp0. exists (record_row conf i r st0). split.
    + apply process_row_mk_row; [exact Hi|]. by eapply lookup_lt_Some.
    + unfold record_row; simpl. by rewrite list_lookup_alter_eq, Hp0.
Qed.

Lemma counter_filter_first_slot_witness :
  hook_calls (run (trace_test_case scenario_conf true scenario_device
                     scenario_inputs 0)).2
  = [filtered_pfc_readings scenario_conf scenario_inputs
       (pfc_readings scenario_histories)]
  ∧ filtered_pfc_readings scenario_conf scenario_inputs
      (pfc_readings scenario_histories) !! 1%nat
    = Some (filter_first_slot scenario_conf [5; 5; 5; 6; 6] 0, 0, 0).
Proof.
  pose proof (counter_filter_first_slot scenario_conf scenario_device
                scenario_inputs 0 scenario_histories 1
                {| pfc_0 := [5; 5; 5; 6; 6]; pfc_1 := [11; 11; 11; 11; 11];
                   pfc_2 := [21; 21; 21; 21; 21] |}) as H.
  destruct H as (H1 & H2 & _).
  - reflexivity.
  - vm_compute. discriminate.
  - vm_compute. reflexivity.
  - reflexivity.
  - split; [exact H1|exact H2].
Defined.

(** ** Masking *)

Lemma recorded_trace_masked conf a b :
  ignore_first_cache_line conf = true →
  Z.testbit (recorded_trace conf a) b = (b <? 63) && Z.testbit a b.
Proof.
  intros Hflag. unfold recorded_trace. rewrite Hflag.
  change first_cache_line_mask with (Z.ones 63).
  rewrite Z.land_spec, Z.testbit_ones by lia.
  destruct (Z.leb_spec 0 b), (Z.ltb_spec b 63); simpl;
    rewrite ?Bool.andb_true_r, ?Bool.andb_false_r; try reflexivity.
  all: by rewrite Z.testbit_neg_r by lia.
Qed.

(** C2, as the code has it. With [ignore_first_cache_line] on, every
    value in every trace history, after any number of measurements, is
    the CACHE_MAP cell of the row of that input in an earlier measurement
    AND-ed with 2^63 - 1: bit 63 and all higher bits are 0, and the bits
    0 .. 62, bit 0 included, are those of the cell. *)
Theorem mask_clears_bit_63 conf dev inputs k st j h t :
  ignore_first_cache_line conf = true →
  histories_after conf dev inputs k = Ok st →
  traces st !! j = Some h → t ∈ h →
  ∃ k' r, (k' < k)%nat ∧ rows (measure dev k') !! j = Some (mk_row r)
    ∧ t = Z.land r.1.1.1 (2 ^ 63 - 1)
    ∧ Z.testbit t 63 = false
    ∧ (∀ b, 63 ≤ b → Z.testbit t b = false)
    ∧ (∀ b, b < 63 → Z.testbit t b = Z.testbit r.1.1.1 b).
Proof.
  intros Hflag Hst Hj Ht.
  destruct (histories_after_provenance _ _ _ _ _ _ _ _ Hst Hj Ht)
    as (k' & r & Hk & Hrow & ->).
  exists k', r. split_and!; try done.
  - unfold recorded_trace. by rewrite Hflag.
  - by rewrite recorded_trace_masked.
  - intros b Hb. rewrite recorded_trace_masked by exact Hflag.
    destruct (Z.ltb_spec b 63); [lia|reflexivity].
  - intros b Hb. rewrite recorded_trace_masked by exact Hflag.
    destruct (Z.ltb_spec b 63); [reflexivity|lia].
Qed.

Lemma mask_clears_bit_63_witness :
  ∃ k' r, (k' < 2)%nat
    ∧ rows (measure masking_device k') !! 0%nat = Some (mk_row r)
    ∧ 1 = Z.land r.1.1.1 (2 ^ 63 - 1)
    ∧ Z.testbit 1 63 = false
    ∧ (∀ b, 63 ≤ b → Z.testbit 1 b = false)
    ∧ (∀ b, b < 63 → Z.testbit 1 b = Z.testbit r.1.1.1 b).
Proof.
  apply (mask_clears_bit_63 masking_conf masking_device masking_inputs 2
           {| traces := [[1; 1]];
              pfc_readings := [ {| pfc_0 := [7; 7]; pfc_1 := [10; 10];
                                   pfc_2 := [20; 20] |} ] |}
           0 [1; 1] 1).
  - reflexivity.
  - vm_compute. reflexivity.
  - reflexivity.
  - apply elem_of_cons. by left.
Defined.

(** C2, as stated, fails: with the flag on, the reading 2^63 + 1 is
    recorded as 1 in both measurements, and bit 0 of that is set. *)
Lemma lowest_bit_survives_masking :
  ignore_first_cache_line masking_conf = true
  ∧ histories_after masking_conf masking_device masking_inputs 2
    = Ok {| traces := [[1; 1]];
            pfc_readings := [ {| pfc_0 := [7; 7]; pfc_1 := [10; 10];
                                 pfc_2 := [20; 20] |} ] |}
  ∧ (run (trace_test_case masking_conf false masking_device masking_inputs 0)).1
    = Ok [1]
  ∧ Z.testbit 1 0 = true.
Proof. split_and!; [reflexivity|by vm_compute|by vm_compute|reflexivity]. Qed.

(** ** Dummy calls *)

(** C3, as the code has it. A call with no inputs returns the empty list
    and touches nothing, whatever the number of measurements. With inputs,
    0 measurements is not a dummy call: it stands for
    [CONF.num_measurements], and the call starts with the probe of the
    kernel module. *)
Theorem dummy_call_is_the_empty_batch conf coverage dev inputs n0 :
  (inputs = [] →
   run (trace_test_case conf coverage dev inputs n0) = (Ok [], []))
  ∧ (inputs ≠ [] →
     run (trace_test_case conf coverage dev inputs 0) =
     run (trace_test_case conf coverage dev inputs (num_measurements conf))
     ∧ ∃ rest,
         device_calls (run (trace_test_case conf coverage dev inputs n0)).2
         = IsFile :: rest).
Proof.
  split; [by intros ->|]. intros Hne. split.
  - rewrite !run_trace_test_case by exact Hne.
    replace (effective_rounds conf (num_measurements conf))
      with (effective_rounds conf 0); [reflexivity|].
    unfold effective_rounds. simpl.
    by destruct (Z.eqb_spec (num_measurements conf) 0).
  - rewrite run_trace_test_case by exact Hne.
    destruct (module_loaded dev); [|by eexists].
    destruct (String.eqb _ _); [by eexists|]. cbv zeta.
    destruct (run (measure_rounds _ _ _ _)) as [[st|e] l]; by eexists.
Qed.

Lemma dummy_call_is_the_empty_batch_witness :
  run (trace_test_case scenario_conf true scenario_device [] 0) = (Ok [], [])
  ∧ run (trace_test_case scenario_conf true scenario_device scenario_inputs 0) =
    run (trace_test_case scenario_conf true scenario_device scenario_inputs 5).
Proof.
  split.
  - destruct (dummy_call_is_the_empty_batch scenario_conf true scenario_device
                [] 0) as [Hnil _].
    apply Hnil. reflexivity.
  - destruct (dummy_call_is_the_empty_batch scenario_conf true scenario_device
                scenario_inputs 0) as [_ Hcons].
    apply Hcons. discriminate.
Defined.

(** C3, as stated, fails: with three inputs and 0 measurements asked for,
    the configured five measurements are run on the module and three
    merged traces come back. *)
Lemma zero_measurements_is_the_default :
  (run (trace_test_case scenario_conf true scenario_device scenario_inputs 0)).1
  = Ok [3; 0; 4]
  ∧ device_calls
      (run (trace_test_case scenario_conf true scenario_device scenario_inputs 0)).2
    = [IsFile; WriteNInputs 3; WriteInputs [Byte.x61; Byte.x62; Byte.x63];
       ReadNInputs; RunMeasurement 2; RunMeasurement 2; RunMeasurement 2;
       RunMeasurement 2; RunMeasurement 2].
Proof. split; by vm_compute. Qed.

(** ** The shape of one measurement *)

(** C4, as the code has it. When the header has the trace column and
    every row parses, the rows of one measurement are recorded in order,
    row [j] for input [j]. No row count is checked: with as many rows as
    inputs or fewer the measurement is accepted, and the inputs after the
    last row keep their histories as they were; with more rows than inputs
    the measurement raises an index error. *)
Theorem measurement_rows_in_order conf dev k st rs :
  trace_not_produced (measure dev k) = false →
  rows (measure dev k) = mk_row <$> rs →
  length (pfc_readings st) = length (traces st) →
  ((length rs ≤ length (traces st))%nat →
   ∃ st', (run (measure_round conf dev k st)).1 = Ok st'
     ∧ length (traces st') = length (traces st)
     ∧ length (pfc_readings st') = length (pfc_readings st)
     ∧ ∀ j,
         traces st' !! j =
         match rs !! j with
         | Some r => (λ h, h ++ [recorded_trace conf r.1.1.1]) <$> traces st !! j
         | None => traces st !! j
         end
         ∧ pfc_readings st' !! j =
           match rs !! j with
           | Some r =>
               (λ p, {| pfc_0 := pfc_0 p ++ [r.1.1.2];
                        pfc_1 := pfc_1 p ++ [r.1.2];
                        pfc_2 := pfc_2 p ++ [r.2] |}) <$> pfc_readings st !! j
           | None => pfc_readings st !! j
           end)
  ∧ ((length (traces st) < length rs)%nat →
     (run (measure_round conf dev k st)).1 = Raise IndexError).
Proof.
  intros Hcol Hrows Hlen. rewrite run_measure_round, Hcol, Hrows. cbn [fst].
  split.
  - intros Hle. exists (record_rows conf 0 rs st).
    destruct (record_rows_lengths conf rs 0 st) as [E1 E2].
    split_and!; [|exact E1|exact E2|].
    + apply process_rows_mk_row; simpl; lia.
    + intros j. rewrite record_rows_traces, record_rows_pfc_readings.
      by rewrite !alter_from_0_lookup.
  - intros Hgt. apply process_rows_overflow; [exact Hlen|lia].
Qed.

Lemma measurement_rows_in_order_witness :
  ∃ st', (run (measure_round short_conf short_device 0
                 (initial_histories short_inputs))).1 = Ok st'
    ∧ traces st' !! 0%nat = Some [5] ∧ traces st' !! 1%nat = Some [].
Proof.
  destruct (measurement_rows_in_order short_conf short_device 0
              (initial_histories short_inputs) [(5, 7, 10, 20)]
              eq_refl eq_refl eq_refl) as [Hshort _].
  destruct Hshort as (st' & Hrun & _ & _ & Hlookup); [simpl; lia|].
  exists st'. split; [exact Hrun|].
  split; [exact (proj1 (Hlookup 0%nat))|exact (proj1 (Hlookup 1%nat))].
Defined.

(** C4, as stated, fails: two inputs are submitted, every measurement
    answers with one row, and the call returns merged traces for both
    inputs instead of an error. *)
Lemma short_measurement_is_accepted :
  length short_inputs = 2%nat
  ∧ length (rows (measure short_device 0)) = 1%nat
  ∧ length (rows (measure short_device 1)) = 1%nat
  ∧ (run (trace_test_case short_conf false short_device short_inputs 2)).1
    = Ok [5; 0].
Proof. split_and!; by vm_compute. Qed.

(** ** A single measurement *)

Lemma comprehension_fmap {A B C} (f : B → result C) (g : A → B) (h : A → C) l :
  (∀ x, f (g x) = Ok (h x)) → comprehension f (g <$> l) = Ok (h <$> l).
Proof.
  intros Hf. induction l as [|x l IH]; [reflexivity|].
  rewrite !fmap_cons. cbn [comprehension]. by rewrite Hf, IH.
Qed.

Lemma record_rows_initial_traces conf inputs rs :
  length rs = length inputs →
  traces (record_rows conf 0 rs (initial_histories inputs)) =
  (λ r, [recorded_trace conf r.1.1.1]) <$> rs.
Proof.
  intros Hlen. apply list_eq. intros j.
  rewrite record_rows_traces, alter_from_0_lookup, list_lookup_fmap. simpl.
  destruct (rs !! j) as [r|] eqn:E; simpl.
  - rewrite lookup_replicate_2; [reflexivity|].
    rewrite <- Hlen. by eapply lookup_lt_Some.
  - apply lookup_replicate_None. rewrite <- Hlen. by apply lookup_ge_None.
Qed.

Lemma record_rows_initial_pfc_readings conf inputs rs :
  length rs = length inputs →
  pfc_readings (record_rows conf 0 rs (initial_histories inputs)) =
  (λ r, {| pfc_0 := [r.1.1.2]; pfc_1 := [r.1.2]; pfc_2 := [r.2] |}) <$> rs.
Proof.
  intros Hlen. apply list_eq. intros j.
  rewrite record_rows_pfc_readings, alter_from_0_lookup, list_lookup_fmap. simpl.
  destruct (rs !! j) as [r|] eqn:E; simpl.
  - rewrite lookup_replicate_2; [reflexivity|].
    rewrite <- Hlen. by eapply lookup_lt_Some.
  - apply lookup_replicate_None. rewrite <- Hlen. by apply lookup_ge_None.
Qed.

(** C5, as the code has it. With one measurement, a ready module and one
    well-formed row per input, the call returns for each input the trace
    as it was recorded, with no outlier removal: the CACHE_MAP cell itself
    when [ignore_first_cache_line] is off, the cell AND-ed with 2^63 - 1
    when it is on. The coverage hook, when there is one, receives the
    three counter cells of each row as they were read. *)
Theorem single_measurement_unfiltered conf coverage dev inputs n0 rs :
  inputs ≠ [] →
  device_ready dev = true →
  effective_rounds conf n0 = 1 →
  trace_not_produced (measure dev 0) = false →
  rows (measure dev 0) = mk_row <$> rs →
  length rs = length inputs →
  run (trace_test_case conf coverage dev inputs n0) =
    (Ok ((λ r, recorded_trace conf r.1.1.1) <$> rs),
     prelude inputs ++ [RunMeasurement (measurement_cpu conf)]
     ++ if coverage then [ExecutorHook ((λ r, (r.1.1.2, r.1.2, r.2)) <$> rs)]
        else [])
  ∧ (ignore_first_cache_line conf = false →
     (run (trace_test_case conf coverage dev inputs n0)).1 =
     Ok ((λ r, r.1.1.1) <$> rs))
  ∧ (ignore_first_cache_line conf = true →
     (run (trace_test_case conf coverage dev inputs n0)).1 =
     Ok ((λ r, Z.land r.1.1.1 (2 ^ 63 - 1)) <$> rs)).
Proof.
  intros Hne [Hl Ha]%device_ready_true Hn Hcol Hrows Hlen.
  assert (run (trace_test_case conf coverage dev inputs n0) =
    (Ok ((λ r, recorded_trace conf r.1.1.1) <$> rs),
     prelude inputs ++ [RunMeasurement (measurement_cpu conf)]
     ++ if coverage then [ExecutorHook ((λ r, (r.1.1.2, r.1.2, r.2)) <$> rs)]
        else [])) as Hrun.
  { rewrite run_trace_test_case by exact Hne. rewrite Hl, Ha, Hn. cbv zeta.
    assert (histories_after conf dev inputs 1 =
            Ok (record_rows conf 0 rs (initial_histories inputs))) as Hst.
    { rewrite histories_after_S, histories_after_0, Hcol, Hrows.
      apply process_rows_mk_row; simpl; rewrite length_replicate; lia. }
    change (Z.to_nat 1) with 1%nat.
    rewrite (histories_after_run _ _ _ _ _ Hst). simpl (1 =? 1). cbv iota.
    rewrite run_single_measurement.
    rewrite record_rows_initial_traces, record_rows_initial_pfc_readings
      by exact Hlen.
    rewrite (comprehension_fmap first _ (λ r, recorded_trace conf r.1.1.1))
      by reflexivity.
    rewrite (comprehension_fmap raw_triple _ (λ r, (r.1.1.2, r.1.2, r.2)))
      by reflexivity.
    by destruct coverage. }
  rewrite Hrun. split; [reflexivity|]. cbn [fst]. unfold recorded_trace.
  split; intros ->; reflexivity.
Qed.

Lemma single_measurement_unfiltered_witness :
  run (trace_test_case masking_conf true masking_device masking_inputs 1) =
    (Ok [1],
     [IsFile; WriteNInputs 1; WriteInputs [Byte.x61]; ReadNInputs;
      RunMeasurement 2; ExecutorHook [(7, 10, 20)]]).
Proof.
  apply (single_measurement_unfiltered masking_conf true masking_device
           masking_inputs 1 [(9223372036854775809, 7, 10, 20)]);
    [discriminate|reflexivity|reflexivity|reflexivity|reflexivity|reflexivity].
Defined.

(** C5, as stated, fails: with [ignore_first_cache_line] on, the single
    measurement reads 2^63 + 1 for the input and the call returns 1. *)
Lemma single_measurement_is_masked :
  rows (measure masking_device 0) = [mk_row (9223372036854775809, 7, 10, 20)]
  ∧ (run (trace_test_case masking_conf true masking_device masking_inputs 1)).1
    = Ok [1]
  ∧ 1 ≠ 9223372036854775809.
Proof. split_and!; [reflexivity|by vm_compute|discriminate]. Qed.

(** ** A measurement without the trace column *)

Lemma histories_after_missing_column conf dev inputs k n :
  (k < n)%nat → trace_not_produced (measure dev k) = true →
  ∃ e, histories_after conf dev inputs n = Raise e.
Proof.
  intros Hk Hcol.
  destruct (histories_after conf dev inputs k) as [st|e] eqn:E.
  - exists HardwareTraceNotProduced.
    apply (histories_after_Raise _ _ _ (S k)); [|lia].
    by rewrite histories_after_S, E, Hcol.
  - exists e. apply (histories_after_Raise _ _ _ k); [exact E|lia].
Qed.

Lemma histories_after_well_formed conf dev inputs k :
  (∀ j, (j < k)%nat →
        trace_not_produced (measure dev j) = false ∧
        ∃ rs, rows (measure dev j) = mk_row <$> rs
              ∧ (length rs ≤ length inputs)%nat) →
  ∃ st, histories_after conf dev inputs k = Ok st.
Proof.
  induction k as [|k IH]; intros Hwf.
  - eexists. apply histories_after_0.
  - destruct IH as [st Hst]; [intros j Hj; apply Hwf; lia|].
    destruct (Hwf k) as (Hcol & rs & Hrows & Hlen); [lia|].
    destruct (histories_after_aligned _ _ _ _ _ Hst) as (Ht & Hp & _).
    exists (record_rows conf 0 rs st).
    rewrite histories_after_S, Hst, Hcol, Hrows.
    apply process_rows_mk_row; simpl; lia.
Qed.

Lemma run_trace_test_case_Raise conf coverage dev inputs n0 e :
  inputs ≠ [] →
  histories_after conf dev inputs (Z.to_nat (effective_rounds conf n0)) = Raise e →
  (∃ e', (run (trace_test_case conf coverage dev inputs n0)).1 = Raise e')
  ∧ (device_ready dev = true →
     (run (trace_test_case conf coverage dev inputs n0)).1 = Raise e).
Proof.
  intros Hne Hst. unfold histories_after in Hst.
  rewrite run_trace_test_case by exact Hne. unfold device_ready.
  destruct (module_loaded dev); [|split; [by eexists|discriminate]].
  destruct (String.eqb _ _); [split; [by eexists|discriminate]|].
  cbv zeta.
  destruct (run (measure_rounds _ _ _ _)) as [[st|e'] l]; simpl in Hst;
    [discriminate|].
  injection Hst as ->. split; [by eexists|done].
Qed.

(** C7. When some measurement of a non-empty batch comes back without the
    CACHE_MAP column, the call raises and returns no merged trace at all;
    and when the module is ready and the measurements before it were well
    formed, what it raises is the "Hardware Trace was not produced"
    exception. *)
Theorem missing_trace_column_aborts conf coverage dev inputs n0 k :
  inputs ≠ [] →
  (k < Z.to_nat (effective_rounds conf n0))%nat →
  trace_not_produced (measure dev k) = true →
  (∃ e, (run (trace_test_case conf coverage dev inputs n0)).1 = Raise e)
  ∧ (device_ready dev = true →
     (∀ j, (j < k)%nat →
           trace_not_produced (measure dev j) = false ∧
           ∃ rs, rows (measure dev j) = mk_row <$> rs
                 ∧ (length rs ≤ length inputs)%nat) →
     (run (trace_test_case conf coverage dev inputs n0)).1 =
     Raise HardwareTraceNotProduced).
Proof.
  intros Hne Hk Hcol. split.
  - destruct (histories_after_missing_column conf dev inputs _ _ Hk Hcol)
      as [e He].
    by destruct (run_trace_test_case_Raise conf coverage dev inputs n0 e Hne He).
  - intros Hready Hwf.
    destruct (histories_after_well_formed conf dev inputs k Hwf) as [st Hst].
    apply run_trace_test_case_Raise; [exact Hne| |exact Hready].
    apply (histories_after_Raise _ _ _ (S k)); [|lia].
    by rewrite histories_after_S, Hst, Hcol.
Qed.

Lemma missing_trace_column_aborts_witness :
  (run (trace_test_case scenario_conf true silent_device scenario_inputs 0)).1
  = Raise HardwareTraceNotProduced.
Proof.
  apply (missing_trace_column_aborts scenario_conf true silent_device
           scenario_inputs 0 1).
  - discriminate.
  - vm_compute. lia.
  - reflexivity.
  - reflexivity.
  - intros j Hj. assert (j = 0%nat) as -> by lia.
    split; [reflexivity|].
    exists [(1, 7, 10, 20); (8, 5, 11, 21); (4, 9, 12, 22)].
    split; [reflexivity|simpl; lia].
Defined.

(** ** One result per input *)

Lemma run_trace_test_case_Ok_inv conf coverage dev inputs n0 res log :
  inputs ≠ [] →
  run (trace_test_case conf coverage dev inputs n0) = (Ok res, log) →
  ∃ st,
    histories_after conf dev inputs (Z.to_nat (effective_rounds conf n0)) = Ok st
    ∧ (if effective_rounds conf n0 =? 1
       then comprehension first (traces st) = Ok res
       else res = merged_traces conf inputs (traces st))
    ∧ ∃ payload,
        log = prelude inputs
              ++ replicate (Z.to_nat (effective_rounds conf n0))
                   (RunMeasurement (measurement_cpu conf))
              ++ (if coverage then [ExecutorHook payload] else [])
        ∧ if effective_rounds conf n0 =? 1
          then coverage = true →
               comprehension raw_triple (pfc_readings st) = Ok payload
          else payload = filtered_pfc_readings conf inputs (pfc_readings st).
Proof.
  intros Hne Hrun.
  rewrite run_trace_test_case in Hrun by exact Hne.
  destruct (module_loaded dev); [|discriminate].
  destruct (String.eqb _ _); [discriminate|]. cbv zeta in Hrun.
  set (n := effective_rounds conf n0) in *.
  destruct (histories_after conf dev inputs (Z.to_nat n)) as [st|e] eqn:Hst.
  2: { unfold histories_after in Hst.
       destruct (run (measure_rounds _ _ _ _)) as [[st|e'] l];
         simpl in Hst; discriminate. }
  rewrite (histories_after_run _ _ _ _ _ Hst) in Hrun.
  exists st. split; [reflexivity|].
  destruct (n =? 1).
  - rewrite run_single_measurement in Hrun. destruct coverage.
    + destruct (comprehension raw_triple (pfc_readings st)) as [payload|e];
        cbn [fst snd] in Hrun; [|discriminate].
      injection Hrun as Hfirst <-. split; [exact Hfirst|].
      exists payload. split; reflexivity.
    + cbn [fst snd] in Hrun. injection Hrun as Hfirst <-.
      split; [exact Hfirst|]. exists []. split; [reflexivity|discriminate].
  - rewrite run_remove_outliers in Hrun. cbn [fst snd] in Hrun.
    injection Hrun as <- <-. split; [reflexivity|].
    eexists. split; [|reflexivity]. by destruct coverage.
Qed.


Ltac fold_log inputs n conf l :=
  repeat match goal with
  | |- context [hook_calls ?x] =>
      progress change x with
        (prelude inputs
         ++ replicate (Z.to_nat n) (RunMeasurement (measurement_cpu conf)) ++ l)
  end;
  rewrite !hook_calls_log.

Lemma comprehension_Ok {A B} (f : A → result B) l r :
  comprehension f l = Ok r →
  length r = length l ∧
  ∀ i x, l !! i = Some x → ∃ y, f x = Ok y ∧ r !! i = Some y.
Proof.
  revert r. induction l as [|x l IH]; intros r H; simpl in H.
  - injection H as <-. split; [reflexivity|]. intros i x Hx. discriminate.
  - destruct (f x) as [y|e] eqn:Ey; [|discriminate]. simpl in H.
    destruct (comprehension f l) as [ys|e]; [|discriminate]. simpl in H.
    injection H as <-. destruct (IH ys eq_refl) as [Hlen Hlook].
    split; [simpl; by rewrite Hlen|].
    intros [|i] x' Hx'; simpl in *.
    + injection Hx' as <-. by exists y.
    + by apply Hlook.
Qed.



(** * Further properties of the code *)

(** ** The merged trace as a function of the history *)

Lemma merge_trace_list_app_grows conf l k :
  Z.lor (merge_trace_list conf (l ++ k) 0) (merge_trace_list conf l 0) =
  merge_trace_list conf (l ++ k) 0.
Proof.
  induction k as [|x k IH] using rev_ind.
  - rewrite app_nil_r. apply Z.lor_diag.
  - rewrite app_assoc, merge_trace_list_snoc.
    destruct (_ =? _); [|exact IH].
    rewrite <- Z.lor_assoc, (Z.lor_comm x), Z.lor_assoc. by rewrite IH.
Qed.

(** X1. Measuring more never takes a bit away: the merged trace of a
    history extended by further measurements contains every bit of the
    merged trace of the history, for any [max_outliers]. *)
Theorem more_measurements_keep_bits conf l k b :
  Z.testbit (merge_trace_list conf l 0) b = true →
  Z.testbit (merge_trace_list conf (l ++ k) 0) b = true.
Proof.
  intros Hb. rewrite <- merge_trace_list_app_grows, Z.lor_spec, Hb.
  apply Bool.orb_true_r.
Qed.

Lemma more_measurements_keep_bits_witness :
  Z.testbit (merge_trace_list scenario_conf ([1; 1] ++ [2; 2; 2]) 0) 0 = true.
Proof.
  apply (more_measurements_keep_bits scenario_conf [1; 1] [2; 2; 2] 0).
  reflexivity.
Defined.

(** X2. A larger tolerance merges less: for 0 <= max_outliers <=
    max_outliers', every bit of the trace merged under max_outliers' is a
    bit of the trace merged under max_outliers. *)
Theorem larger_tolerance_merges_less conf conf' l b :
  0 ≤ max_outliers conf → max_outliers conf ≤ max_outliers conf' →
  Z.testbit (merge_trace_list conf' l 0) b = true →
  Z.testbit (merge_trace_list conf l 0) b = true.
Proof.
  intros Hmo Hle. rewrite !merge_trace_list_testbit by lia.
  intros (v & Hv & Hc & Hb). exists v. split_and!; [exact Hv|lia|exact Hb].
Qed.

Lemma larger_tolerance_merges_less_witness :
  Z.testbit (merge_trace_list strict_conf [1; 1; 2; 2; 2] 0) 1 = true.
Proof.
  apply (larger_tolerance_merges_less strict_conf scenario_conf
           [1; 1; 2; 2; 2] 1); [simpl; lia|simpl; lia|reflexivity].
Defined.

(** X3. With [max_outliers] = 0 nothing is an outlier: the merged trace is
    the bitwise OR of all the values of the history. *)
Theorem no_tolerance_merges_everything conf l :
  max_outliers conf = 0 → merge_trace_list conf l 0 = or_all l.
Proof.
  intros Hmo. apply bits_eq_of_iff. intros b.
  rewrite merge_trace_list_testbit, or_all_testbit by lia.
  split; intros (v & Hv & H); exists v.
  - by destruct H.
  - split_and!; [exact Hv| |exact H].
    rewrite Hmo. by apply occurrences_pos_elem.
Qed.

Lemma no_tolerance_merges_everything_witness :
  merge_trace_list strict_conf [8; 9; 10; 11; 12] 0 = or_all [8; 9; 10; 11; 12].
Proof.
  apply (no_tolerance_merges_everything strict_conf [8; 9; 10; 11; 12]).
  reflexivity.
Defined.

(** ** The filtered counter as a function of the readings *)

Lemma max_all_le vs z : max_all vs ≤ z ↔ 0 ≤ z ∧ ∀ v, v ∈ vs → v ≤ z.
Proof.
  induction vs as [|x vs IH]; simpl.
  - split; [|tauto]. intros Hz. split; [exact Hz|].
    intros v Hv. by apply elem_of_nil in Hv.
  - rewrite Z.max_lub_iff, IH. split.
    + intros (Hx & Hz & Hvs). split; [exact Hz|].
      intros v [->|Hv]%elem_of_cons; auto.
    + intros (Hz & Hvs). split_and!; [|exact Hz|].
      * apply Hvs, elem_of_cons. by left.
      * intros v Hv. apply Hvs, elem_of_cons. by right.
Qed.

Lemma filter_first_slot_le conf l z :
  0 ≤ max_outliers conf →
  filter_first_slot conf l 0 ≤ z ↔
  0 ≤ z ∧ ∀ v, v ∈ l → max_outliers conf * 2 < occurrences v l → v ≤ z.
Proof.
  intros Hmo. induction l as [|x l IH] using rev_ind.
  - change (filter_first_slot conf [] 0) with 0. split; [|tauto].
    intros Hz. split; [exact Hz|]. intros v Hv. by apply elem_of_nil in Hv.
  - rewrite filter_first_slot_snoc.
    assert (∀ v, v ∈ l ++ [x] → max_outliers conf * 2 < occurrences v (l ++ [x]) →
                 (v ∈ l ∧ max_outliers conf * 2 < occurrences v l)
                 ∨ (v = x ∧ occurrences x l = max_outliers conf * 2)) as Hsplit.
    { intros v Hv Hc. rewrite occurrences_snoc in Hc.
      destruct (decide (x = v)) as [->|Hne].
      - destruct (decide (occurrences v l = max_outliers conf * 2));
          [by right|left].
        split; [apply occurrences_pos_elem|]; lia.
      - left. split; [|exact Hc].
        apply elem_of_app in Hv as [Hv|Hv]; [exact Hv|].
        apply list_elem_of_singleton in Hv. congruence. }
    assert (∀ v, v ∈ l → max_outliers conf * 2 < occurrences v l →
                 v ∈ l ++ [x] ∧ max_outliers conf * 2 < occurrences v (l ++ [x]))
      as Hkeep.
    { intros v Hv Hc. split; [apply elem_of_app; by left|].
      rewrite occurrences_snoc. destruct (decide (x = v)); lia. }
    destruct (Z.eqb_spec (occurrences x l) (max_outliers conf * 2)) as [E|E].
    + rewrite Z.max_lub_iff, IH. split.
      * intros ((Hz & Hl) & Hx). split; [exact Hz|]. intros v Hv Hc.
        destruct (Hsplit v Hv Hc) as [[Hv' Hc']|[-> _]]; auto.
      * intros (Hz & Hall). split_and!; [exact Hz| |].
        -- intros v Hv Hc. destruct (Hkeep v Hv Hc). auto.
        -- apply Hall.
           ++ apply elem_of_app. right. by apply list_elem_of_singleton.
           ++ rewrite occurrences_snoc, decide_True by reflexivity. lia.
    + rewrite IH. split; intros (Hz & Hall); (split; [exact Hz|]).
      * intros v Hv Hc.
        destruct (Hsplit v Hv Hc) as [[Hv' Hc']|[-> Hx]]; [auto|contradiction].
      * intros v Hv Hc. destruct (Hkeep v Hv Hc). auto.
Qed.

Lemma filter_first_slot_negative conf l f0 :
  max_outliers conf < 0 → filter_first_slot conf l f0 = f0.
Proof.
  intros Hmo. induction l as [|x l IH] using rev_ind; [reflexivity|].
  rewrite filter_first_slot_snoc, IH.
  pose proof (occurrences_nonneg x l).
  destruct (Z.eqb_spec (occurrences x l) (max_outliers conf * 2)); [lia|done].
Qed.

Lemma le_all_eq a b : (∀ z, a ≤ z ↔ b ≤ z) → a = b.
Proof.
  intros H. apply Z.le_antisymm.
  - apply H. reflexivity.
  - apply H. reflexivity.
Qed.

(** X4. The filtered first counter depends only on the multiset of the
    readings, and with 0 <= max_outliers it is the largest of 0 and the
    readings that occur more than 2 * max_outliers times: a reading below
    0 never shows, and without a frequent reading the value is 0. *)
Theorem filtered_counter_is_largest_frequent conf l l' :
  (l ≡ₚ l' → filter_first_slot conf l 0 = filter_first_slot conf l' 0)
  ∧ (0 ≤ max_outliers conf →
     filter_first_slot conf l 0 = max_all (frequent_readings conf l)
     ∧ 0 ≤ filter_first_slot conf l 0).
Proof.
  split.
  - intros Hp. destruct (Z.lt_ge_cases (max_outliers conf) 0) as [Hneg|Hmo].
    + by rewrite !filter_first_slot_negative.
    + apply le_all_eq. intros z. rewrite !filter_first_slot_le by exact Hmo.
      split; intros (Hz & Hall); (split; [exact Hz|]); intros v Hv Hc.
      * apply Hall; [by rewrite Hp|by rewrite (occurrences_perm v l l')].
      * apply Hall; [by rewrite <- Hp|by rewrite <- (occurrences_perm v l l')].
  - intros Hmo. split.
    + apply le_all_eq. intros z.
      rewrite filter_first_slot_le, max_all_le by exact Hmo.
      unfold frequent_readings.
      split; intros (Hz & Hall); (split; [exact Hz|]).
      * intros v Hv. apply list_elem_of_filter in Hv as [Hc Hv].
        rewrite elem_of_remove_dups in Hv. by apply Hall.
      * intros v Hv Hc. apply Hall, list_elem_of_filter.
        split; [exact Hc|]. by apply elem_of_remove_dups.
    + assert (filter_first_slot conf l 0 ≤ filter_first_slot conf l 0) as H
        by reflexivity.
      apply filter_first_slot_le in H; [tauto|exact Hmo].
Qed.

Lemma filtered_counter_is_largest_frequent_witness :
  filter_first_slot scenario_conf [5; 5; 5; 6; 6] 0 =
  filter_first_slot scenario_conf [6; 6; 5; 5; 5] 0
  ∧ filter_first_slot scenario_conf [5; 5; 5; 6; 6] 0 =
    max_all (frequent_readings scenario_conf [5; 5; 5; 6; 6]).
Proof.
  destruct (filtered_counter_is_largest_frequent scenario_conf
              [5; 5; 5; 6; 6] [6; 6; 5; 5; 5]) as [Hperm Hmax].
  split.
  - apply Hperm. apply (Permutation_count_occ Z.eq_dec). intros x.
    cbn [count_occ]. repeat destruct (Z.eq_dec _ x); lia.
  - apply Hmax. simpl. lia.
Defined.

(** ** The histories *)

(** X5. After any number of completed iterations of the measurement loop,
    the trace history of an input and its three counter lists have the
    same length: a row is recorded in all four or in none. *)
Theorem histories_grow_together conf dev inputs k st i h p :
  histories_after conf dev inputs k = Ok st →
  traces st !! i = Some h → pfc_readings st !! i = Some p →
  length (pfc_0 p) = length h ∧ length (pfc_1 p) = length h
  ∧ length (pfc_2 p) = length h.
Proof.
  revert st h p. induction k as [|k IH]; intros st h p H Hh Hp.
  - rewrite histories_after_0 in H. injection H as <-. simpl in Hh, Hp.
    apply lookup_replicate in Hh as [-> _].
    apply lookup_replicate in Hp as [-> _]. done.
  - apply histories_after_S_Ok in H as (st0 & rs & H0 & _ & _ & -> & _).
    rewrite record_rows_traces, alter_from_0_lookup in Hh.
    rewrite record_rows_pfc_readings, alter_from_0_lookup in Hp.
    destruct (rs !! i) as [r|]; [|by eapply IH].
    destruct (traces st0 !! i) as [h0|] eqn:Eh; [|discriminate].
    destruct (pfc_readings st0 !! i) as [p0|] eqn:Ep; [|discriminate].
    simpl in Hh, Hp. injection Hh as <-. injection Hp as <-. simpl.
    destruct (IH st0 h0 p0 H0 Eh Ep) as (E0 & E1 & E2).
    rewrite !length_app. simpl. lia.
Qed.

Lemma histories_grow_together_witness :
  length [5; 5; 5; 6; 6] = length [8; 9; 10; 11; 12]
  ∧ length [11; 11; 11; 11; 11] = length [8; 9; 10; 11; 12]
  ∧ length [21; 21; 21; 21; 21] = length [8; 9; 10; 11; 12].
Proof.
  apply (histories_grow_together scenario_conf scenario_device scenario_inputs
           5 scenario_histories 1 [8; 9; 10; 11; 12]
           {| pfc_0 := [5; 5; 5; 6; 6]; pfc_1 := [11; 11; 11; 11; 11];
              pfc_2 := [21; 21; 21; 21; 21] |});
    [by vm_compute|reflexivity|reflexivity].
Defined.

Lemma cells_lookup table k i :
  (i < length (table k))%nat → table k !! i = Some (cells table k i).
Proof. intros Hi. unfold cells. by apply list_lookup_lookup_total_lt. Qed.

(** X6. When each of the first [n] measurements has the trace column and
    exactly one well-formed row per input, the loop completes, and the
    histories of input [i] are the cells of row [i] of the successive
    measurements, in the order of the measurements, the trace cell passed
    through [recorded_trace]. The readings of one input never reach the
    histories of another. *)
Theorem histories_are_the_columns conf dev inputs table n :
  (∀ k, (k < n)%nat →
        trace_not_produced (measure dev k) = false
        ∧ rows (measure dev k) = mk_row <$> table k
        ∧ length (table k) = length inputs) →
  ∃ st, histories_after conf dev inputs n = Ok st
    ∧ ∀ i, (i < length inputs)%nat →
        traces st !! i = Some (trace_column conf table n i)
        ∧ pfc_readings st !! i = Some (pfc_columns table n i).
Proof.
  induction n as [|n IH]; intros Hwf.
  - exists (initial_histories inputs). split; [apply histories_after_0|].
    intros i Hi. simpl. by rewrite !lookup_replicate_2.
  - destruct IH as (st & Hst & Hcols); [intros k Hk; apply Hwf; lia|].
    destruct (Hwf n) as (Hcol & Hrows & Hlen); [lia|].
    destruct (histories_after_aligned _ _ _ _ _ Hst) as (Ht & Hp & _).
    exists (record_rows conf 0 (table n) st). split.
    + rewrite histories_after_S, Hst, Hcol, Hrows.
      apply process_rows_mk_row; simpl; lia.
    + intros i Hi. destruct (Hcols i Hi) as [Hti Hpi].
      rewrite record_rows_traces, record_rows_pfc_readings.
      rewrite !alter_from_0_lookup, cells_lookup, Hti, Hpi by lia. simpl.
      unfold trace_column, pfc_columns.
      rewrite seq_S, !fmap_app. simpl. done.
Qed.

Lemma histories_are_the_columns_witness :
  ∃ st, histories_after scenario_conf scenario_device scenario_inputs 5 = Ok st
    ∧ ∀ i, (i < length scenario_inputs)%nat →
        traces st !! i = Some (trace_column scenario_conf scenario_table 5 i)
        ∧ pfc_readings st !! i = Some (pfc_columns scenario_table 5 i).
Proof.
  apply (histories_are_the_columns scenario_conf scenario_device
           scenario_inputs scenario_table 5).
  intros k Hk. split_and!; reflexivity.
Defined.

(** ** The events of a call *)

Lemma run_measure_rounds_failed conf dev inputs k n st0 e :
  histories_after conf dev inputs k = Ok st0 →
  histories_after conf dev inputs (S k) = Raise e →
  (S k ≤ n)%nat →
  run (measure_rounds conf dev n (initial_histories inputs)) =
  (Raise e, replicate (S k) (RunMeasurement (measurement_cpu conf))).
Proof.
  intros H0 HS Hle. induction Hle as [|n Hle IH].
  - rewrite run_measure_rounds_S, (histories_after_run _ _ _ _ _ H0).
    rewrite histories_after_S, H0 in HS. rewrite HS.
    by rewrite replicate_S_end.
  - by rewrite run_measure_rounds_S, IH.
Qed.

Lemma run_trace_test_case_ready conf coverage dev inputs n0 :
  inputs ≠ [] → device_ready dev = true →
  run (trace_test_case conf coverage dev inputs n0) =
  match run (measure_rounds conf dev (Z.to_nat (effective_rounds conf n0))
               (initial_histories inputs)) with
  | (Ok st, l) =>
      let out := run (if effective_rounds conf n0 =? 1
                      then single_measurement coverage st
                      else remove_outliers conf coverage inputs st) in
      (out.1, prelude inputs ++ l ++ out.2)
  | (Raise e, l) => (Raise e, prelude inputs ++ l)
  end.
Proof.
  intros Hne [Hl Ha]%device_ready_true.
  rewrite run_trace_test_case by exact Hne. by rewrite Hl, Ha.
Qed.

(** X7. A failed measurement is the last one: when the module is ready,
    the first [k] iterations complete and iteration [k] raises, the call
    raises the same exception, having run exactly [k + 1] measurements,
    none after the failing one, and without calling the coverage hook. *)
Theorem failed_measurement_is_the_last conf coverage dev inputs n0 k st0 e :
  inputs ≠ [] → device_ready dev = true →
  (k < Z.to_nat (effective_rounds conf n0))%nat →
  histories_after conf dev inputs k = Ok st0 →
  histories_after conf dev inputs (S k) = Raise e →
  run (trace_test_case conf coverage dev inputs n0) =
  (Raise e,
   prelude inputs ++ replicate (S k) (RunMeasurement (measurement_cpu conf))).
Proof.
  intros Hne Hready Hk H0 HS.
  rewrite run_trace_test_case_ready by assumption.
  by rewrite (run_measure_rounds_failed _ _ _ k _ st0 e H0 HS) by lia.
Qed.

Lemma failed_measurement_is_the_last_witness :
  run (trace_test_case scenario_conf true silent_device scenario_inputs 0) =
  (Raise HardwareTraceNotProduced,
   prelude scenario_inputs ++ replicate 2 (RunMeasurement 2)).
Proof.
  apply (failed_measurement_is_the_last scenario_conf true silent_device
           scenario_inputs 0 1
           {| traces := [[1]; [8]; [4]];
              pfc_readings :=
                [ {| pfc_0 := [7]; pfc_1 := [10]; pfc_2 := [20] |};
                  {| pfc_0 := [5]; pfc_1 := [11]; pfc_2 := [21] |};
                  {| pfc_0 := [9]; pfc_1 := [12]; pfc_2 := [22] |} ] |}).
  - discriminate.
  - reflexivity.
  - vm_compute. lia.
  - by vm_compute.
  - by vm_compute.
Defined.

(** X8. The events of a returning call on a non-empty batch are, in this
    order: the probe of the module, the announcement of the number of
    inputs, the load of the serialised inputs, the read-back, exactly
    [effective_rounds] measurements on the configured CPU and, with a
    coverage hook, one call of the hook at the very end. *)
Theorem events_of_a_returning_call conf coverage dev inputs n0 res log :
  inputs ≠ [] →
  run (trace_test_case conf coverage dev inputs n0) = (Ok res, log) →
  ∃ payload,
    log = [IsFile; WriteNInputs (length inputs);
           WriteInputs (concat (tobytes <$> inputs)); ReadNInputs]
          ++ replicate (Z.to_nat (effective_rounds conf n0))
               (RunMeasurement (measurement_cpu conf))
          ++ (if coverage then [ExecutorHook payload] else [])
    ∧ length payload = (if coverage then length inputs else 0%nat).
Proof.
  intros Hne Hrun.
  destruct (run_trace_test_case_Ok_inv _ _ _ _ _ _ _ Hne Hrun)
    as (st & Hst & _ & payload & -> & Hpay).
  destruct (histories_after_aligned _ _ _ _ _ Hst) as (_ & Hp & _).
  destruct coverage.
  - exists payload. split; [reflexivity|].
    destruct (_ =? _).
    + destruct (comprehension_Ok _ _ _ (Hpay eq_refl)) as [-> _]. exact Hp.
    + subst payload. apply filtered_pfc_readings_length.
  - exists []. split; reflexivity.
Qed.

Lemma events_of_a_returning_call_witness :
  ∃ payload,
    [IsFile; WriteNInputs 3; WriteInputs [Byte.x61; Byte.x62; Byte.x63];
     ReadNInputs; RunMeasurement 2; RunMeasurement 2; RunMeasurement 2;
     RunMeasurement 2; RunMeasurement 2; ExecutorHook [(7, 0, 0); (5, 0, 0); (9, 0, 0)]]
    = [IsFile; WriteNInputs (length scenario_inputs);
       WriteInputs (concat (tobytes <$> scenario_inputs)); ReadNInputs]
      ++ replicate (Z.to_nat (effective_rounds scenario_conf 0))
           (RunMeasurement (measurement_cpu scenario_conf))
      ++ [ExecutorHook payload]
    ∧ length payload = length scenario_inputs.
Proof.
  apply (events_of_a_returning_call scenario_conf true scenario_device
           scenario_inputs 0 [3; 0; 4]).
  - discriminate.
  - by vm_compute.
Defined.

(** ** The coverage hook and failures *)

Lemma comprehension_total {A B} (f : A → result B) l :
  (∀ i x, l !! i = Some x → ∃ y, f x = Ok y) →
  ∃ r, comprehension f l = Ok r.
Proof.
  induction l as [|x l IH]; intros Hall; [by eexists|].
  destruct (Hall 0%nat x eq_refl) as [y Hy].
  destruct IH as [r Hr]; [intros i x' Hx'; by apply (Hall (S i))|].
  exists (y :: r). cbn [comprehension]. by rewrite Hy, Hr.
Qed.

Lemma raw_triple_Ok p t : raw_triple p = Ok t → pfc_0 p ≠ [].
Proof. unfold raw_triple. by destruct (pfc_0 p). Qed.

Lemma hook_payload_then_result conf dev inputs k st payload :
  histories_after conf dev inputs k = Ok st →
  comprehension raw_triple (pfc_readings st) = Ok payload →
  ∃ res, comprehension first (traces st) = Ok res.
Proof.
  intros Hst Hpay. apply comprehension_total. intros i h Hh.
  destruct (histories_after_aligned _ _ _ _ _ Hst) as (Ht & Hp & _).
  destruct (lookup_lt_is_Some_2 (pfc_readings st) i) as [p Hpi].
  { rewrite Hp, <- Ht. by eapply lookup_lt_Some. }
  destruct (comprehension_Ok _ _ _ Hpay) as [_ Hlook].
  destruct (Hlook i p Hpi) as (t & Htriple%raw_triple_Ok & _).
  assert (length (pfc_0 p) = length h) as Hlen.
  { revert Hst Hh Hpi. clear. revert st h p.
    induction k as [|k IH]; intros st h p H Hh Hp.
    - rewrite histories_after_0 in H. injection H as <-. simpl in Hh, Hp.
      apply lookup_replicate in Hh as [-> _].
      by apply lookup_replicate in Hp as [-> _].
    - apply histories_after_S_Ok in H as (st0 & rs & H0 & _ & _ & -> & _).
      rewrite record_rows_traces, alter_from_0_lookup in Hh.
      rewrite record_rows_pfc_readings, alter_from_0_lookup in Hp.
      destruct (rs !! i) as [r|]; [|by eapply IH].
      destruct (traces st0 !! i) as [h0|] eqn:Eh; [|discriminate].
      destruct (pfc_readings st0 !! i) as [p0|] eqn:Ep; [|discriminate].
      simpl in Hh, Hp. injection Hh as <-. injection Hp as <-. simpl.
      rewrite !length_app, (IH st0 h0 p0 H0 Eh Ep). reflexivity. }
  destruct h as [|x h]; [|by exists x].
  destruct (pfc_0 p); [done|discriminate].
Qed.

(** X9. A call that raises has not called the coverage hook: whatever the
    module answers, the hook is called only by a call that goes on to
    return its traces. *)
Theorem no_hook_call_on_failure conf coverage dev inputs n0 e :
  (run (trace_test_case conf coverage dev inputs n0)).1 = Raise e →
  hook_calls (run (trace_test_case conf coverage dev inputs n0)).2 = [].
Proof.
  destruct inputs as [|i0 inputs0] eqn:Einputs; [discriminate|].
  rewrite <- Einputs. assert (inputs ≠ []) as Hne by (by subst).
  clear Einputs. rewrite run_trace_test_case by exact Hne.
  destruct (module_loaded dev); [|reflexivity].
  destruct (String.eqb _ _); [reflexivity|]. cbv zeta.
  set (n := effective_rounds conf n0).
  destruct (histories_after conf dev inputs (Z.to_nat n)) as [st|e'] eqn:Hst.
  - rewrite (histories_after_run _ _ _ _ _ Hst).
    destruct (n =? 1).
    + rewrite run_single_measurement. destruct coverage.
      * destruct (comprehension raw_triple (pfc_readings st))
          as [payload|e'] eqn:Ep; cbn [fst snd].
        -- destruct (hook_payload_then_result _ _ _ _ _ _ Hst Ep) as [r ->].
           discriminate.
        -- intros _. by rewrite hook_calls_log.
      * cbn [fst snd]. intros _. by rewrite hook_calls_log.
    + rewrite run_remove_outliers. discriminate.
  - destruct (run_measure_rounds_log conf dev (Z.to_nat n)
                (initial_histories inputs)) as (m & _ & Hlog & _).
    unfold histories_after in Hst.
    destruct (run (measure_rounds _ _ _ _)) as [[st|e''] l];
      simpl in Hst, Hlog; [discriminate|].
    intros _. cbn [snd]. subst l.
    by rewrite hook_calls_app, hook_calls_prelude, hook_calls_measurements.
Qed.

Lemma no_hook_call_on_failure_witness :
  hook_calls
    (run (trace_test_case scenario_conf true silent_device scenario_inputs 0)).2
  = [].
Proof.
  apply (no_hook_call_on_failure scenario_conf true silent_device
           scenario_inputs 0 HardwareTraceNotProduced).
  by vm_compute.
Defined.

(** ** Nothing measured, nothing tolerated *)

Lemma merged_traces_zero conf inputs trs :
  (∀ i l, trs !! i = Some l → merge_trace_list conf l 0 = 0) →
  merged_traces conf inputs trs = replicate (length inputs) 0.
Proof.
  intros Hzero. apply list_eq. intros i. unfold merged_traces.
  rewrite list_lookup_imap.
  destruct (replicate (length inputs) 0 !! i) as [z|] eqn:E; [|reflexivity].
  apply lookup_replicate in E as [-> _]. simpl.
  destruct (trs !! i) as [l|] eqn:El; [|reflexivity].
  by rewrite (Hzero i l El).
Qed.

Lemma filtered_pfc_readings_zero conf inputs pfcs :
  (∀ i p, pfcs !! i = Some p → filter_first_slot conf (pfc_0 p) 0 = 0) →
  filtered_pfc_readings conf inputs pfcs = replicate (length inputs) (0, 0, 0).
Proof.
  intros Hzero. apply list_eq. intros i. unfold filtered_pfc_readings.
  rewrite list_lookup_imap.
  destruct (replicate (length inputs) (0, 0, 0) !! i) as [z|] eqn:E;
    [|reflexivity].
  apply lookup_replicate in E as [-> _]. simpl.
  destruct (pfcs !! i) as [p|] eqn:Ep; [|reflexivity].
  unfold filter_pfc. simpl. by rewrite (Hzero i p Ep).
Qed.

(** X10. With a ready module and a number of measurements that is 0 even
    after the default (or negative), no measurement is run at all, and yet
    the call returns one merged trace 0 per input and hands one triple
    (0, 0, 0) per input to the coverage hook. *)
Theorem no_measurement_gives_zeros conf coverage dev inputs n0 :
  inputs ≠ [] → device_ready dev = true →
  effective_rounds conf n0 ≤ 0 →
  run (trace_test_case conf coverage dev inputs n0) =
  (Ok (replicate (length inputs) 0),
   prelude inputs
   ++ if coverage then [ExecutorHook (replicate (length inputs) (0, 0, 0))]
      else []).
Proof.
  intros Hne Hready Hn.
  assert (Z.to_nat (effective_rounds conf n0) = 0%nat) as Hz by lia.
  rewrite (run_trace_test_case_multi conf coverage dev inputs n0
             (initial_histories inputs) Hne Hready); [|lia|].
  - rewrite Hz. simpl replicate at 1. cbn [app].
    rewrite merged_traces_zero, filtered_pfc_readings_zero; [reflexivity| |].
    + intros i p Hp. simpl in Hp. by apply lookup_replicate in Hp as [-> _].
    + intros i l Hl. simpl in Hl. by apply lookup_replicate in Hl as [-> _].
  - rewrite Hz. apply histories_after_0.
Qed.

Lemma no_measurement_gives_zeros_witness :
  run (trace_test_case idle_conf true scenario_device scenario_inputs 0) =
  (Ok [0; 0; 0],
   prelude scenario_inputs ++ [ExecutorHook [(0, 0, 0); (0, 0, 0); (0, 0, 0)]]).
Proof.
  apply (no_measurement_gives_zeros idle_conf true scenario_device
           scenario_inputs 0); [discriminate|reflexivity|by vm_compute].
Defined.

(** X11. A negative [max_outliers] tolerates everything away: in the
    multi-measurement path every merged trace is 0 and every filtered
    counter triple is (0, 0, 0), whatever was measured. *)
Theorem negative_tolerance_merges_nothing conf coverage dev inputs n0 st :
  inputs ≠ [] → device_ready dev = true →
  effective_rounds conf n0 ≠ 1 →
  histories_after conf dev inputs (Z.to_nat (effective_rounds conf n0)) = Ok st →
  max_outliers conf < 0 →
  run (trace_test_case conf coverage dev inputs n0) =
  (Ok (replicate (length inputs) 0),
   prelude inputs
   ++ replicate (Z.to_nat (effective_rounds conf n0))
        (RunMeasurement (measurement_cpu conf))
   ++ if coverage then [ExecutorHook (replicate (length inputs) (0, 0, 0))]
      else []).
Proof.
  intros Hne Hready Hn Hst Hmo.
  rewrite (run_trace_test_case_multi _ _ _ _ _ _ Hne Hready Hn Hst).
  rewrite merged_traces_zero, filtered_pfc_readings_zero; [reflexivity| |].
  - intros i p _. by apply filter_first_slot_negative.
  - intros i l _. by apply merge_trace_list_negative.
Qed.

Lemma negative_tolerance_merges_nothing_witness :
  run (trace_test_case negative_conf true scenario_device scenario_inputs 0) =
  (Ok [0; 0; 0],
   prelude scenario_inputs ++ replicate 5 (RunMeasurement 2)
   ++ [ExecutorHook [(0, 0, 0); (0, 0, 0); (0, 0, 0)]]).
Proof.
  apply (negative_tolerance_merges_nothing negative_conf true scenario_device
           scenario_inputs 0 scenario_histories).
  - discriminate.
  - reflexivity.
  - by vm_compute.
  - by vm_compute.
  - simpl. lia.
Defined.

(** ** The range of the returned traces *)

Lemma low_63_bits_range t :
  (∀ b, 63 ≤ b → Z.testbit t b = false) → 0 ≤ t < 2 ^ 63.
Proof.
  intros Hhigh.
  assert (Z.land t (Z.ones 63) = t) as E.
  { apply Z.bits_inj. intros b. rewrite Z.land_spec, Z.testbit_ones by lia.
    destruct (Z.leb_spec 0 b), (Z.ltb_spec b 63); simpl;
      rewrite ?Bool.andb_true_r, ?Bool.andb_false_r; try reflexivity.
    - symmetry. apply Hhigh. lia.
    - symmetry. apply Z.testbit_neg_r. lia.
    - symmetry. apply Z.testbit_neg_r. lia. }
  rewrite Z.land_ones in E by lia. rewrite <- E.
  apply Z.mod_pos_bound. lia.
Qed.

Lemma merge_trace_list_high_bits conf l b :
  (∀ v, v ∈ l → Z.testbit v b = false) →
  Z.testbit (merge_trace_list conf l 0) b = false.
Proof.
  intros Hall. induction l as [|x l IH] using rev_ind.
  - apply Z.bits_0.
  - rewrite merge_trace_list_snoc.
    assert (Z.testbit (merge_trace_list conf l 0) b = false) as Hl.
    { apply IH. intros v Hv. apply Hall, elem_of_app. by left. }
    destruct (_ =? _); [|exact Hl].
    rewrite Z.lor_spec, Hl. simpl. apply Hall, elem_of_app. right.
    by apply list_elem_of_singleton.
Qed.

(** X12. With [ignore_first_cache_line] on, every trace a call returns,
    from a single measurement or merged from many, lies in the range
    0 .. 2^63 - 1, whatever integers the module wrote into the trace
    column. *)
Theorem masked_results_fit_63_bits conf coverage dev inputs n0 res log i t :
  ignore_first_cache_line conf = true →
  run (trace_test_case conf coverage dev inputs n0) = (Ok res, log) →
  res !! i = Some t →
  0 ≤ t < 2 ^ 63.
Proof.
  intros Hflag Hrun Hi.
  destruct inputs as [|i0 inputs0] eqn:Einputs.
  { injection Hrun as <- _. discriminate. }
  rewrite <- Einputs in *. assert (inputs ≠ []) as Hne by (by subst).
  clear Einputs.
  destruct (run_trace_test_case_Ok_inv _ _ _ _ _ _ _ Hne Hrun)
    as (st & Hst & Hres & _).
  assert (∀ h v b, traces st !! i = Some h → v ∈ h → 63 ≤ b →
                   Z.testbit v b = false) as Hmasked.
  { intros h v b Hh Hv Hb.
    destruct (histories_after_provenance _ _ _ _ _ _ _ _ Hst Hh Hv)
      as (k' & r & _ & _ & ->).
    rewrite recorded_trace_masked by exact Hflag.
    destruct (Z.ltb_spec b 63); [lia|reflexivity]. }
  destruct (histories_after_aligned _ _ _ _ _ Hst) as (Ht & _).
  apply low_63_bits_range. intros b Hb.
  destruct (effective_rounds conf n0 =? 1).
  - destruct (comprehension_Ok _ _ _ Hres) as [Hlen Hlook].
    destruct (lookup_lt_is_Some_2 (traces st) i) as [h Hh].
    { rewrite <- Hlen. by eapply lookup_lt_Some. }
    destruct (Hlook i h Hh) as (t' & Hfirst & Hi').
    assert (t' = t) as -> by congruence.
    apply (Hmasked h t b Hh); [|exact Hb].
    destruct h as [|x h]; simpl in Hfirst; [discriminate|].
    injection Hfirst as ->. apply elem_of_cons. by left.
  - subst res.
    destruct (lookup_lt_is_Some_2 (traces st) i) as [h Hh].
    { rewrite Ht, <- (merged_traces_length conf inputs (traces st)).
      by eapply lookup_lt_Some. }
    rewrite (merged_traces_lookup _ _ _ _ _ Ht Hh) in Hi.
    injection Hi as <-. apply merge_trace_list_high_bits.
    intros v Hv. by apply (Hmasked h v b Hh).
Qed.

Lemma masked_results_fit_63_bits_witness : 0 ≤ 1 < 2 ^ 63.
Proof.
  apply (masked_results_fit_63_bits masking_conf true masking_device
           masking_inputs 0 [1]
           (prelude masking_inputs ++ replicate 2 (RunMeasurement 2)
            ++ [ExecutorHook [(7, 0, 0)]]) 0 1);
    [reflexivity|by vm_compute|reflexivity].
Defined.

(** ** Rows that cannot be used *)

Lemma comprehension_IndexError {A B} (f : A → result B) l e :
  (∀ x e', f x = Raise e' → e' = IndexError) →
  comprehension f l = Raise e → e = IndexError.
Proof.
  intros Hf. induction l as [|x l IH]; simpl; [discriminate|].
  destruct (f x) as [y|e'] eqn:Ex; simpl.
  - destruct (comprehension f l) as [ys|e'']; simpl; [discriminate|].
    intros [= <-]. by apply IH.
  - intros [= <-]. by eapply Hf.
Qed.

Lemma first_IndexError l e : first l = Raise e → e = IndexError.
Proof. destruct l; simpl; congruence. Qed.

Lemma raw_triple_IndexError p e : raw_triple p = Raise e → e = IndexError.
Proof.
  unfold raw_triple.
  destruct (pfc_0 p), (pfc_1 p), (pfc_2 p); simpl;
    intros H; try discriminate; by injection H.
Qed.

(** X13. A single measurement with fewer rows than inputs does not return
    a shorter list: with a ready module, one measurement asked for and
    well-formed rows for the first inputs only, the call raises an index
    error after that one measurement, and the coverage hook is not
    called. *)
Theorem short_single_measurement_raises conf coverage dev inputs n0 rs :
  device_ready dev = true →
  effective_rounds conf n0 = 1 →
  trace_not_produced (measure dev 0) = false →
  rows (measure dev 0) = mk_row <$> rs →
  (length rs < length inputs)%nat →
  run (trace_test_case conf coverage dev inputs n0) =
  (Raise IndexError,
   prelude inputs ++ [RunMeasurement (measurement_cpu conf)]).
Proof.
  intros Hready Hn Hcol Hrows Hlen.
  assert (inputs ≠ []) as Hne by (intros ->; simpl in Hlen; lia).
  assert (histories_after conf dev inputs 1 =
          Ok (record_rows conf 0 rs (initial_histories inputs))) as Hst.
  { rewrite histories_after_S, histories_after_0, Hcol, Hrows.
    apply process_rows_mk_row; simpl; rewrite length_replicate; lia. }
  set (st := record_rows conf 0 rs (initial_histories inputs)) in *.
  assert (traces st !! length rs = Some []) as Hempty.
  { unfold st. rewrite record_rows_traces, alter_from_0_lookup.
    rewrite (lookup_ge_None_2 rs) by lia. simpl.
    by apply lookup_replicate_2. }
  assert (pfc_readings st !! length rs
          = Some {| pfc_0 := []; pfc_1 := []; pfc_2 := [] |}) as Hemptyp.
  { unfold st. rewrite record_rows_pfc_readings, alter_from_0_lookup.
    rewrite (lookup_ge_None_2 rs) by lia. simpl.
    by apply lookup_replicate_2. }
  assert (comprehension first (traces st) = Raise IndexError) as Hfirst.
  { destruct (comprehension first (traces st)) as [r|e] eqn:E.
    - destruct (comprehension_Ok _ _ _ E) as [_ Hlook].
      destruct (Hlook _ _ Hempty) as (y & Hy & _). discriminate.
    - f_equal. eapply comprehension_IndexError; [|exact E].
      apply first_IndexError. }
  assert (comprehension raw_triple (pfc_readings st) = Raise IndexError)
    as Htriple.
  { destruct (comprehension raw_triple (pfc_readings st)) as [r|e] eqn:E.
    - destruct (comprehension_Ok _ _ _ E) as [_ Hlook].
      destruct (Hlook _ _ Hemptyp) as (y & Hy & _). discriminate.
    - f_equal. eapply comprehension_IndexError; [|exact E].
      apply raw_triple_IndexError. }
  rewrite run_trace_test_case_ready by assumption.
  rewrite Hn. change (Z.to_nat 1) with 1%nat.
  rewrite (histories_after_run _ _ _ _ _ Hst). simpl (1 =? 1). cbv iota zeta.
  rewrite run_single_measurement, Hfirst, Htriple.
  by destruct coverage.
Qed.

Lemma short_single_measurement_raises_witness :
  run (trace_test_case short_conf true short_device short_inputs 1) =
  (Raise IndexError, prelude short_inputs ++ [RunMeasurement 2]).
Proof.
  apply (short_single_measurement_raises short_conf true short_device
           short_inputs 1 [(5, 7, 10, 20)]);
    [reflexivity|reflexivity|reflexivity|reflexivity|simpl; lia].
Defined.

Lemma process_rows_app conf a b : ∀ i st,
  process_rows conf i (a ++ b) st =
  process_rows conf i a st ≫= process_rows conf (i + length a) b.
Proof.
  induction a as [|row a IH]; intros i st; simpl.
  - by rewrite Nat.add_0_r.
  - destruct (process_row conf i row st) as [st'|e]; simpl; [|reflexivity].
    rewrite IH. by replace (S i + length a)%nat with (i + S (length a))%nat by lia.
Qed.

Lemma process_row_unreadable conf i row st :
  (i < length (traces st))%nat → (i < length (pfc_readings st))%nat →
  CACHE_MAP row = None ∨ pfc1 row = None ∨ pfc2 row = None ∨ pfc3 row = None →
  process_row conf i row st = Raise CellError.
Proof.
  intros Ht Hp Hcell.
  destruct row as [[a|] [b|] [c|] [d|]]; simpl in Hcell;
    try (destruct Hcell as [?|[?|[?|?]]]; discriminate);
    unfold process_row, update_at; simpl;
    repeat (rewrite decide_True by (rewrite ?length_alter; assumption); simpl);
    reflexivity.
Qed.

(** X14. A row with a cell that cannot be read aborts the batch: when the
    module is ready, the first [k] iterations complete and measurement [k]
    has, after well-formed rows, such a row for one of the inputs, the
    call raises the exception of that cell after exactly [k + 1]
    measurements; the rows after it are not looked at. Which Python
    exception it is (a ValueError for text that is not an integer, a
    TypeError or KeyError for a missing cell) is not told apart: all are
    [CellError]. *)
Theorem unreadable_cell_aborts conf coverage dev inputs n0 k st0 rs row rest :
  device_ready dev = true →
  (k < Z.to_nat (effective_rounds conf n0))%nat →
  histories_after conf dev inputs k = Ok st0 →
  trace_not_produced (measure dev k) = false →
  rows (measure dev k) = (mk_row <$> rs) ++ row :: rest →
  (length rs < length inputs)%nat →
  CACHE_MAP row = None ∨ pfc1 row = None ∨ pfc2 row = None ∨ pfc3 row = None →
  run (trace_test_case conf coverage dev inputs n0) =
  (Raise CellError,
   prelude inputs ++ replicate (S k) (RunMeasurement (measurement_cpu conf))).
Proof.
  intros Hready Hk H0 Hcol Hrows Hlen Hcell.
  assert (inputs ≠ []) as Hne by (intros ->; simpl in Hlen; lia).
  destruct (histories_after_aligned _ _ _ _ _ H0) as (Ht & Hp & _).
  assert (histories_after conf dev inputs (S k) = Raise CellError) as HS.
  { rewrite histories_after_S, H0, Hcol, Hrows, process_rows_app.
    rewrite process_rows_mk_row by (simpl; lia). simpl.
    destruct (record_rows_lengths conf rs 0 st0) as [E1 E2].
    rewrite process_row_unreadable; [reflexivity| | |exact Hcell];
      rewrite length_fmap; lia. }
  rewrite run_trace_test_case_ready by assumption.
  by rewrite (run_measure_rounds_failed _ _ _ k _ st0 _ H0 HS) by lia.
Qed.

Lemma unreadable_cell_aborts_witness :
  run (trace_test_case scenario_conf true garbled_device scenario_inputs 0) =
  (Raise CellError, prelude scenario_inputs ++ replicate 3 (RunMeasurement 2)).
Proof.
  apply (unreadable_cell_aborts scenario_conf true garbled_device
           scenario_inputs 0 2
           {| traces := [[1; 1]; [8; 9]; [4; 4]];
              pfc_readings :=
                [ {| pfc_0 := [7; 7]; pfc_1 := [10; 10]; pfc_2 := [20; 20] |};
                  {| pfc_0 := [5; 5]; pfc_1 := [11; 11]; pfc_2 := [21; 21] |};
                  {| pfc_0 := [9; 9]; pfc_1 := [12; 12]; pfc_2 := [22; 22] |} ] |}
           [(2, 7, 10, 20)]
           {| CACHE_MAP := None; pfc1 := Some 5; pfc2 := Some 11;
              pfc3 := Some 21 |}
           [mk_row (4, 9, 12, 22)]).
  - reflexivity.
  - vm_compute. lia.
  - by vm_compute.
  - reflexivity.
  - reflexivity.
  - simpl. lia.
  - by left.
Defined.

(** ** The SMT check *)

Lemma split_newline_nonempty s : split_newline s ≠ [].
Proof.
  destruct s as [|c s]; simpl; [discriminate|].
  destruct (Ascii.eqb c newline); [discriminate|].
  by destruct (split_newline s).
Qed.

Lemma join_split_newline s : join_newline (split_newline s) = s.
Proof.
  induction s as [|c s IH]; [reflexivity|]. simpl.
  pose proof (split_newline_nonempty s) as Hne.
  destruct (split_newline s) as [|piece pieces] eqn:E; [done|].
  destruct (Ascii.eqb_spec c newline) as [->|Hc].
  - change (join_newline (EmptyString :: piece :: pieces))
      with (String newline (join_newline (piece :: pieces))).
    by rewrite IH.
  - destruct pieces as [|piece' pieces].
    + simpl in *. by rewrite IH.
    + change (join_newline (String c piece :: piece' :: pieces))
        with (String c (join_newline (piece :: piece' :: pieces))).
      by rewrite IH.
Qed.

Lemma last_char_cons c rest : ∃ c', last_char (String c rest) = Some c'.
Proof.
  revert c. induction rest as [|d rest IH]; intros c; [by exists c|].
  destruct (IH d) as [c' Hc']. exists c'. exact Hc'.
Qed.

Lemma threads_line_last_char line :
  is_threads_line line = true → ∃ c, last_char line = Some c.
Proof.
  destruct line as [|c rest]; [discriminate|]. intros _. apply last_char_cons.
Qed.

Lemma smt_scan_snoc acc lines line :
  foldl smt_step acc (lines ++ [line]) = smt_step (foldl smt_step acc lines) line.
Proof. apply foldl_snoc. Qed.

Lemma smt_scan_no_marker acc lines :
  Forall (λ line, is_threads_line line = false) lines →
  foldl smt_step acc lines = acc.
Proof.
  revert acc. induction lines as [|line lines IH]; intros acc Hall;
    [reflexivity|].
  inversion Hall as [|? ? Hline Hrest]; subst. simpl.
  unfold smt_step at 2. rewrite Hline. by apply IH.
Qed.

(** X15. The SMT check leaves [smt_on] unknown exactly when no line of the
    lscpu output starts with "Thread(s) per core:". *)
Theorem smt_unknown_iff_no_marker stdout :
  detect_smt stdout = None ↔
  Forall (λ line, is_threads_line line = false) (split_newline stdout).
Proof.
  unfold detect_smt. split; [|apply smt_scan_no_marker].
  induction (split_newline stdout) as [|line lines IH] using rev_ind;
    [constructor|].
  rewrite smt_scan_snoc. unfold smt_step at 1.
  destruct (is_threads_line line) eqn:Hline.
  - by case_bool_decide.
  - intros H. apply Forall_app. split; [by apply IH|].
    by apply Forall_singleton.
Qed.

Lemma smt_unknown_iff_no_marker_witness :
  detect_smt "Architecture: x86_64" = None.
Proof.
  apply (smt_unknown_iff_no_marker "Architecture: x86_64").
  by repeat constructor.
Defined.

(** X16. When lines start with "Thread(s) per core:", the last of them
    decides, and only by its final character, which it always has: SMT is
    taken to be off if that character is 1 and on for anything else, be it
    another digit, a blank after the number, or a count such as 11. *)
Theorem last_marker_line_decides stdout before line after :
  split_newline stdout = before ++ line :: after →
  is_threads_line line = true →
  Forall (λ l, is_threads_line l = false) after →
  ∃ c, last_char line = Some c
    ∧ detect_smt stdout = Some (negb (Ascii.eqb c "1"%char)).
Proof.
  intros Hsplit Hline Hafter.
  destruct (threads_line_last_char line Hline) as [c Hc].
  exists c. split; [exact Hc|].
  unfold detect_smt. rewrite Hsplit, foldl_app. simpl.
  rewrite smt_scan_no_marker by exact Hafter.
  unfold smt_step. rewrite Hline, Hc.
  destruct (Ascii.eqb_spec c "1"%char) as [->|Hne].
  - by rewrite bool_decide_eq_true_2.
  - rewrite bool_decide_eq_false_2; [reflexivity|congruence].
Qed.

Lemma last_marker_line_decides_witness :
  ∃ c, last_char "Thread(s) per core:  2" = Some c
    ∧ detect_smt (join_newline lscpu_sample)
      = Some (negb (Ascii.eqb c "1"%char)).
Proof.
  apply (last_marker_line_decides (join_newline lscpu_sample)
           ["Architecture:        x86_64"%string]
           "Thread(s) per core:  2"
           ["Core(s) per socket:  4"; ""]%string).
  - reflexivity.
  - reflexivity.
  - by repeat constructor.
Defined.
